(* ===== verification/_CoqProject ===== *)
-Q . S2P
Prelude.v
Board.v
Engine.v
Controller.v
Moves.v
Refinement.v
View.v
Storage.v
Page.v
Scenarios.v
