(* ===== verification/Prelude.v ===== *)
(** * A verification development of ggcr/react-tic-tac-toe

    The program is one React component file, src/src/Game.js.  Its
    logic is two parts:
    - the board engine: pure functions over the [squares] array,
      calculateNextValue (whose turn it is, by counting marks),
      calculateWinner (three in a row, with the line's endpoints),
      calculateStatus (the status text) and generateRandomInitial (the
      mark that moves first on a tie);
    - the [Board] component: four pieces of state ([squares],
      [initial], [gameHistory], [gameIdx], each kept by useLocalStorage)
      and the click handlers selectSquare, previous, next and restart,
      which call the engine through the values the render derives
      ([nextValue], [winner], [status], lines 15-17).
    Each state variable is kept in [localStorage] by the useLocalStorage
    hook (./useLocalStorage, not part of src/), and the component renders
    its state as JSX (lines 51-107).

    ** Files
    - [Prelude] (this file): the JavaScript semantics the model needs.
      [js_at] is an array read [a[i]] with a Number index ([None] for
      [undefined]); [js_band], [js_num_of_bool] and [js_num_truthy] are
      the bitwise [&] that calculateWinner puts between comparisons;
      [first_some] is a [for] loop that returns from its body.  It also
      holds the shared tactics ([invc], [js_simp], [z_lits]), the hint
      databases [js]/[js_rw], and generic lemmas on lists and filters.
    - [Board]: the data.  [mark] is 'X' | 'O'; a square ([cell]) is
      [null] or a mark; a [board] is the [squares] array; [jsval] is a
      value read from it ([undefined], [null] or a mark); [rows], [cols],
      [empty_board]; counts of marks and of filled squares.
    - [Engine]: the engine functions, translated loop by loop: the
      nested counting loop of calculateNextValue as two folds over
      [seqZ], the horizontal and vertical loops of calculateWinner as
      [first_some] over [seqZ], the centre-square arithmetic of line 151
      and the [&]-joined conditions as written.  Specifications:
      [turn_spec] (the turn rule on mark counts), [winner_spec] (the
      first of the eight lines, in scan order, one mark fills), the
      geometric predicate [wins] (a full row, column or diagonal) and
      [segment] (the squares between two reported endpoints).  The class
      [GameRules] states what the component relies on from the engine
      (the turn rule, and a [null] winner exactly when no mark wins);
      [engine_rules] is the engine's instance, and the component's
      invariants are proved from its laws.
    - [Controller]: the component's [state] record and its handlers,
      each a function from the state of the render to the next state.
      previous and next have no guard of their own; they return [None]
      when they would set [squares] to [undefined] (the next render
      throws).  [ui_step] is the page as a transition system: a click on
      one of the nine squares, on previous/next only while the button is
      enabled (lines 82, 85), or on restart with a draw of
      [Math.random()] in [[0, 1)]; [reachable] holds the states of a game
      started by restart.  [wf] is the invariant of the history.
    - [Moves]: the accepted clicks ([click_accepted]), the shape of the
      state in a game ([state_shape], a type invariant) and the termination of every
      sequence of accepted clicks.
    - [Refinement]: [HistorySpec] is the controller of §4.2 of the
      specification (history, cursor, starting mark; playMove, undo,
      redo, newGame with their error values), and [alpha] maps the
      component's state to it.
    - [View]: [render], the JSX of lines 59-107 as the text and
      attributes the page shows (status, the three rows of squares
      drawn by renderSquare, the buttons' [disabled] attributes, the
      debug panel); [Game] and [App] (lines 176-190) as an [element]
      tree of [div]s with their class names around the Board's view.
    - [Storage]: the four storage keys of lines 10-13; the history's
      key is line 12's array converted to a string by [js_to_string].
    - [Page]: the [onClick] bindings as an executable [dispatch] of
      user [event]s (a click on a button the page renders [disabled]
      runs nothing), [run] over a list of events, [event_ok] for the
      events a user can produce (the nine squares, draws in [[0, 1)]),
      and [game_over] (a winner, or nine filled squares), the
      specification's end of a game.
    - [Scenarios]: the scenarios A-F of §8 of the specification run on
      [dispatch] and evaluated by [vm_compute], and concrete instances
      of the theorems (every theorem with a hypothesis is applied at a
      state the page reaches).

    ** What is proved
    - Engine: calculateNextValue computes [turn_spec] on the counts of
      'X' and 'O' (the loop against its specification);
      calculateWinner equals [winner_spec] on a 9-square board, reports
      no winner exactly when no mark fills a row, column or diagonal,
      and whatever it reports is a winning mark whose segment between
      the endpoints it fills; calculateStatus's three branches;
      generateRandomInitial never indexes out of ['X','O'] for a draw in
      [[0, 1)].
    - Controller: every user event keeps [wf] ([0 <= gameIdx <
      length], [squares] = [gameHistory[gameIdx]], the history starts
      with the empty board, each board is a legal move from the one
      before); in a game the counts of 'X' and 'O' differ by at most one
      and the players alternate from [initial]; no board is won by both
      players and a winner is always the player of the last move; a game
      at the end of its history with no winner and a free square always
      accepts some click (it cannot get stuck); a game holds at most
      ten boards; selectSquare rejects (state unchanged) exactly on a
      winner, a non-null square or a past index, and otherwise appends
      the new board; previous after a move restores board and index, and
      next after previous restores the state; the previous handler
      itself fails at index 0 and next at the last board (only the
      disabled buttons guard them); a click outside 0..8 changes nothing
      (the read is [undefined], not [null]).
    - Moves: every board of a game has 9 squares and [gameIdx] is an
      index of the history; the clicks the page accepts in a game are
      well-founded (no game goes on for ever).
    - Refinement: each handler implements its command of the
      specification (rejections leave the state unchanged or keep the
      button disabled), every user event is a transition of the
      specification's machine or leaves its state unchanged, and every
      state of a game is one the machine reaches.
    - Page: no event a user can produce makes a handler fail (the
      page's guards suffice), and from every state of a game some clicks on squares and on the
      enabled navigation buttons, without restart, end the game (a
      winner or a full board): the game cannot get stuck.  Without
      restart the history only grows (the history before is a prefix of
      the history after, the drawn mark is kept), and a finished game
      rejects every click.
    - View: the nine rendered squares are the board at [gameIdx], in
      row order.

    ** Bounds and fuel
    Nothing needs fuel: every loop of the code runs over [seqZ 0 3], so
    the folds are structural.  The board is fixed at 3 x 3 ([rows] =
    [cols] = 3) as in the code; the engine theorems assume a board of
    9 squares, which [wf] provides for every board of a game.  Numbers
    are [Z] (JavaScript's [gameIdx] and indices are small integers, far
    from any precision limit); [Math.random()] is a rational in
    [[0, 1)].

    ** Not modelled
    The stylesheet (style.css, not in src/, presentation only) and the
    layout and class names of the Board's own JSX (the view keeps its
    text and attributes); the useLocalStorage hook (./useLocalStorage),
    which is not in the repository: §6 of the specification leaves the
    stored form of the state opaque, so what the hook reads at the
    first render (in particular what line 12, which gives no default,
    yields on a first visit), the format it stores and when it writes
    are unknown, and only the keys of lines 10-13 are modelled; for the
    same reason a game here starts at restart, which builds the history
    the specification starts with, and not at the first mount; and
    React's scheduling (each handler runs on the state of one render
    and the next event sees the state it produced). *)

From stdpp Require Export base list list_numbers decidable.
From Stdlib Require Export ZArith Lia.

Declare Scope js_scope.
Delimit Scope js_scope with js.
Open Scope Z_scope.

(** ** Reading a JavaScript array with a Number index

    [a[i]] is the element at position [i] when [0 <= i < a.length] and
    [undefined] otherwise (negative indices included); [None] stands for
    [undefined]. *)
Definition js_at {A} (a : list A) (i : Z) : option A :=
  if i <? 0 then None else a !! Z.to_nat i.

Notation "a .[ i ]" := (js_at a i)
  (at level 1, left associativity, format "a .[ i ]") : js_scope.
Open Scope js_scope.

(** ** Truthiness and the bitwise [&] on booleans

    [c1 & c2] converts each boolean operand to the Number 0 or 1 and
    takes the bitwise and of the two; an [if] on the resulting Number
    takes the branch when it is not 0. *)
Definition js_num_of_bool (b : bool) : Z := Z.b2z b.
Definition js_band (x y : Z) : Z := Z.land x y.
Definition js_num_truthy (n : Z) : bool := negb (n =? 0).

Create HintDb js discriminated.
Create Rewrite HintDb js_rw.

Section JsArray.
Context {A : Type}.
Implicit Types (a : list A) (i : Z).

Lemma js_at_neg a i : i < 0 -> a.[i] = None.
Proof. intros Hi. unfold js_at. by rewrite (proj2 (Z.ltb_lt i 0) Hi). Qed.

Lemma js_at_nonneg a i : 0 <= i -> a.[i] = a !! Z.to_nat i.
Proof. intros Hi. unfold js_at. by rewrite (proj2 (Z.ltb_ge i 0) Hi). Qed.

Lemma js_at_of_nat a (n : nat) : a.[Z.of_nat n] = a !! n.
Proof. rewrite js_at_nonneg by lia. by rewrite Nat2Z.id. Qed.

Lemma js_at_Some_range a i x : a.[i] = Some x -> 0 <= i < Z.of_nat (length a).
Proof.
  unfold js_at. destruct (Z.ltb_spec i 0); [done|].
  intros Hl%lookup_lt_Some. lia.
Qed.

Lemma js_at_in_range a i : 0 <= i < Z.of_nat (length a) -> is_Some (a.[i]).
Proof. intros Hi. rewrite js_at_nonneg by lia. apply lookup_lt_is_Some_2. lia. Qed.

Lemma js_at_app_last a x : (a ++ [x]).[Z.of_nat (length a)] = Some x.
Proof. rewrite js_at_of_nat, lookup_app_r, Nat.sub_diag by lia. done. Qed.

Lemma js_at_app_l a b i : i < Z.of_nat (length a) -> (a ++ b).[i] = a.[i].
Proof.
  unfold js_at. destruct (Z.ltb_spec i 0); [done|].
  intros Hi. apply lookup_app_l. lia.
Qed.
End JsArray.

#[export] Hint Rewrite @js_at_of_nat @js_at_app_last : js_rw.

(** The bitwise and of 0/1 numbers is truthy exactly when every
    operand is true: [&] on comparisons behaves as [&&]. *)
Lemma js_band2_truthy (b1 b2 : bool) :
  js_num_truthy (js_band (js_num_of_bool b1) (js_num_of_bool b2)) = b1 && b2.
Proof. by destruct b1, b2. Qed.

Lemma js_band3_truthy (b1 b2 b3 : bool) :
  js_num_truthy (js_band (js_band (js_num_of_bool b1) (js_num_of_bool b2))
                         (js_num_of_bool b3)) = b1 && b2 && b3.
Proof. by destruct b1, b2, b3. Qed.

#[export] Hint Rewrite js_band2_truthy js_band3_truthy : js_rw.

(** ** Tactics shared by the development *)

(** Invert a hypothesis and clean the context. *)
Ltac invc H := inversion H; subst; clear H.

(** Rewrite JavaScript-level reads and truthiness, then close the
    arithmetic side goals. *)
Ltac js_simp := autorewrite with js_rw in *; try lia.

(** ** Counting with [filter] across an update by index *)

Lemma length_filter_insert {A} (P : A -> Prop) `{!forall x, Decision (P x)}
    (l : list A) (i : nat) (x y : A) :
  l !! i = Some y ->
  (length (filter P (<[i := x]> l)) + (if decide (P y) then 1 else 0) =
   length (filter P l) + (if decide (P x) then 1 else 0))%nat.
Proof.
  revert i. induction l as [|z l IH]; intros [|i] Hi; simplify_eq/=.
  - rewrite !filter_cons. repeat case_decide; simpl; lia.
  - specialize (IH i Hi). rewrite !filter_cons. repeat case_decide; simpl in *; lia.
Qed.

(** ** A [for] loop that returns from inside its body

    [for (x of l) { if (...) return r }] followed by more code: the
    first [Some] produced by the body, or [None] when the loop runs to
    its end. *)
Fixpoint first_some {A B} (f : A -> option B) (l : list A) : option B :=
  match l with
  | [] => None
  | x :: l' => match f x with Some r => Some r | None => first_some f l' end
  end.

Lemma first_some_app {A B} (f : A -> option B) (l1 l2 : list A) :
  first_some f (l1 ++ l2) =
  match first_some f l1 with Some r => Some r | None => first_some f l2 end.
Proof. induction l1 as [|x l1 IH]; simpl; [done|]. by destruct (f x). Qed.

(** ** Evaluating closed integer arithmetic

    stdpp stops [simpl] and [cbn] on [Pos] arithmetic, so index
    expressions such as [0 * 3 + (3 - 1)] stay as they are.  [z_lits]
    replaces every closed [Z] (or [Z] comparison) subterm of the goal by
    its value. *)
Ltac z_lits :=
  repeat match goal with
  | |- context [?e] =>
      lazymatch e with
      | Z.add _ _ => idtac | Z.sub _ _ => idtac | Z.mul _ _ => idtac
      | Z.div _ _ => idtac | Z.modulo _ _ => idtac
      | Z.eqb _ _ => idtac | Z.ltb _ _ => idtac | Z.leb _ _ => idtac
      end;
      let v := eval vm_compute in e in
      lazymatch v with
      | Z0 => idtac | Zpos _ => idtac | Zneg _ => idtac
      | true => idtac | false => idtac
      end;
      change e with v
  end.

Lemma first_some_elem_of {A B} (f : A -> option B) (l : list A) x y :
  x ∈ l -> f x = Some y -> is_Some (first_some f l).
Proof.
  induction l as [|z l IH]; intros Hx Hf; [by apply not_elem_of_nil in Hx|].
  simpl. destruct (f z) eqn:Ez; [done|].
  apply elem_of_cons in Hx as [->|Hx]; [congruence|by apply IH].
Qed.

Lemma first_some_Some {A B} (f : A -> option B) (l : list A) y :
  first_some f l = Some y -> exists x, x ∈ l /\ f x = Some y.
Proof.
  induction l as [|z l IH]; simpl; [done|].
  destruct (f z) eqn:Ez; intros H.
  - simplify_eq. exists z. split; [constructor|done].
  - destruct (IH H) as (x & ? & ?). exists x. split; [by constructor|done].
Qed.
