(* ===== verification/Board.v ===== *)
(** * Board: marks, cells and the values read out of [squares]

    src/src/Game.js keeps a board as a JavaScript array of 9 values,
    each [null], ['X'] or ['O'], row-major over a [rows] x [cols] = 3 x 3
    grid (lines 5-6, 10, 44).  Reading the array at an index yields one
    of those values or [undefined] when the index is out of range. *)

From S2P Require Import Prelude.

(** The two strings a square can hold. *)
Inductive mark := X | O.

#[export] Instance mark_eq_dec : EqDecision mark.
Proof. solve_decision. Defined.

(** A square: [None] is [null], [Some m] is the string [m]. *)
Abbreviation cell := (option mark).

(** The [squares] array. *)
Abbreviation board := (list cell).

(** A JavaScript value read from [squares] (and the [winner] value
    returned by calculateWinner): [undefined], [null] or a mark. *)
Inductive jsval := Undefined | Null | Str (m : mark).

#[export] Instance jsval_eq_dec : EqDecision jsval.
Proof. solve_decision. Defined.

Definition jsval_of_read (r : option cell) : jsval :=
  match r with
  | None => Undefined
  | Some None => Null
  | Some (Some m) => Str m
  end.

(** [squares[k]]. *)
Definition sq (squares : board) (k : Z) : jsval := jsval_of_read squares.[k].

(** Truthiness of a read value: the strings 'X' and 'O' are non-empty. *)
Definition jsval_truthy (v : jsval) : bool :=
  match v with Str _ => true | _ => false end.

(** [const rows = 3], [const cols = 3] (lines 5-6). *)
Definition rows : Z := 3.
Definition cols : Z := 3.

(** [Array(9).fill(null)] (lines 10, 12, 44, 48). *)
Definition empty_board : board := replicate 9 None.

(** How many squares hold [m]; used by the specifications. *)
Definition count_mark (m : mark) (b : board) : nat :=
  length (filter (fun c => c = Some m) b).

(** How many squares are non-null. *)
Definition filled (b : board) : nat := length (filter is_Some b).

Create HintDb board discriminated.

(** ** Reads of a well-formed board *)

Lemma sq_in_range (b : board) (k : Z) :
  0 <= k < Z.of_nat (length b) -> sq b k <> Undefined.
Proof.
  intros Hk. unfold sq. destruct (js_at_in_range b k Hk) as [c ->].
  by destruct c.
Qed.

Lemma sq_of_lookup (b : board) (k : nat) (c : cell) :
  b !! k = Some c -> sq b (Z.of_nat k) = jsval_of_read (Some c).
Proof. intros H. unfold sq. by rewrite js_at_of_nat, H. Qed.

Lemma sq_Null_lookup (b : board) (k : Z) :
  sq b k = Null -> 0 <= k /\ b !! Z.to_nat k = Some None.
Proof.
  unfold sq, jsval_of_read. destruct (b.[k]) as [[c|]|] eqn:E; try done.
  intros _. pose proof (js_at_Some_range _ _ _ E). rewrite js_at_nonneg in E by lia.
  split; [lia|done].
Qed.

(** ** Counting *)

Lemma count_mark_insert_other (b : board) (i : nat) (m m' : mark) :
  m <> m' -> b !! i = Some None ->
  count_mark m (<[i := Some m']> b) = count_mark m b.
Proof.
  intros Hne Hi. pose proof (length_filter_insert (fun c => c = Some m) b i (Some m') _ Hi) as H.
  unfold count_mark. rewrite !decide_False in H by congruence. lia.
Qed.

Lemma count_mark_insert_same (b : board) (i : nat) (m : mark) :
  b !! i = Some None ->
  count_mark m (<[i := Some m]> b) = S (count_mark m b).
Proof.
  intros Hi. pose proof (length_filter_insert (fun c => c = Some m) b i (Some m) _ Hi) as H.
  unfold count_mark. rewrite decide_False, decide_True in H by congruence. lia.
Qed.

Lemma filled_insert (b : board) (i : nat) (m : mark) :
  b !! i = Some None -> filled (<[i := Some m]> b) = S (filled b).
Proof.
  intros Hi. pose proof (length_filter_insert is_Some b i (Some m) _ Hi) as H.
  unfold filled. rewrite decide_False, decide_True in H by (rewrite ?is_Some_alt; naive_solver). lia.
Qed.

Lemma filled_le_length (b : board) : (filled b <= length b)%nat.
Proof. unfold filled. apply length_filter. Qed.

#[export] Hint Resolve sq_in_range filled_le_length : board.

(** Every non-null square holds 'X' or 'O'. *)
Lemma filled_counts (b : board) : filled b = (count_mark X b + count_mark O b)%nat.
Proof.
  unfold filled, count_mark. induction b as [|c b IH]; [done|].
  rewrite !filter_cons. destruct c as [[]|]; repeat case_decide; simpl;
    try (exfalso; naive_solver); rewrite IH; lia.
Qed.

Lemma sq_Null_iff (b : board) (k : Z) :
  0 <= k -> sq b k = Null <-> b !! Z.to_nat k = Some None.
Proof.
  intros Hk. split; [by intros []%sq_Null_lookup|].
  intros H. unfold sq. by rewrite js_at_nonneg, H.
Qed.

(** A board with fewer filled squares than squares has a [null] one. *)
Lemma exists_null (b : board) :
  (filled b < length b)%nat -> exists k, b !! k = Some None.
Proof.
  unfold filled. induction b as [|c b IH]; simpl; [lia|].
  rewrite filter_cons. destruct c as [m|]; intros H.
  - rewrite decide_True in H by (by eexists). simpl in H.
    destruct IH as [k Hk]; [lia|]. by exists (S k).
  - by exists 0%nat.
Qed.

(** Writing [m] into a square cannot make any square read [m'] for
    another mark [m']. *)
Lemma sq_insert_other (b : board) (i : nat) (m m' : mark) (k : Z) :
  m' <> m -> sq (<[i := Some m]> b) k = Str m' -> sq b k = Str m'.
Proof.
  intros Hne. unfold sq, js_at. destruct (k <? 0); [done|].
  destruct (decide (i = Z.to_nat k)) as [->|Hik].
  - destruct (decide (Z.to_nat k < length b)%nat).
    + rewrite list_lookup_insert_eq by done. simpl. congruence.
    + rewrite list_insert_ge by lia. done.
  - by rewrite list_lookup_insert_ne.
Qed.

Lemma sq_empty_board (k : Z) : sq empty_board k <> Str X /\ sq empty_board k <> Str O.
Proof.
  unfold sq, js_at, empty_board. destruct (k <? 0); [done|].
  destruct (decide (Z.to_nat k < 9)%nat).
  - rewrite lookup_replicate_2 by done. done.
  - rewrite lookup_ge_None_2 by (rewrite length_replicate; lia). done.
Qed.

(** A board with a [null] square is not full. *)
Lemma filled_lt_null (b : board) (i : nat) :
  b !! i = Some None -> (filled b < length b)%nat.
Proof.
  intros Hi. pose proof (filled_insert b i X Hi) as H.
  pose proof (filled_le_length (<[i := Some X]> b)) as Hle.
  rewrite length_insert in Hle. lia.
Qed.

(** Reading outside the array gives [undefined]. *)
Lemma sq_out_of_range (b : board) (k : Z) :
  k < 0 \/ Z.of_nat (length b) <= k -> sq b k = Undefined.
Proof.
  intros Hk. unfold sq. destruct (decide (k < 0)).
  - by rewrite js_at_neg.
  - rewrite js_at_nonneg, lookup_ge_None_2 by lia. done.
Qed.
