(* ===== verification/Engine.v ===== *)
(** * Engine: the pure functions of src/src/Game.js

    calculateNextValue (lines 110-125), generateRandomInitial (127-129),
    calculateWinner (131-166) and calculateStatus (168-174).  None of
    them has state; the [Board] component (Controller.v) calls them on
    its [squares] at every render. *)

From S2P Require Import Prelude Board.
From Stdlib Require Import QArith Qround Lqa.
From stdpp Require Import strings.
Local Open Scope Z_scope.

(** ** calculateNextValue *)

(** One turn of the inner loop body (lines 114-119): read
    [squares[i*rows+j]] and bump the counter of its mark. *)
Definition count_square (squares : board) (count : Z * Z) (k : Z) : Z * Z :=
  match sq squares k with
  | Str X => (count.1 + 1, count.2)
  | Str O => (count.1, count.2 + 1)
  | _ => count
  end.

(** Lines 110-125: the two nested [for] loops over [i < rows] and
    [j < cols] fold [count_square] over [i*rows+j]; then the tie goes
    to [initial] and otherwise the mark with fewer squares moves. *)
Definition calculateNextValue (squares : board) (initial : mark) : mark :=
  let count :=
    foldl (fun count i =>
             foldl (fun count j => count_square squares count (i * rows + j))
                   count (seqZ 0 cols))
          (0, 0) (seqZ 0 rows) in
  if count.1 =? count.2 then initial
  else if count.1 <? count.2 then X else O.

(** The rule the loop implements, on the counts of each mark: the
    specification of §4.1 turnToMove. *)
Definition turn_spec (cx co : nat) (initial : mark) : mark :=
  if Nat.eqb cx co then initial else if Nat.ltb cx co then X else O.

Lemma count_square_fold (b : board) (n : nat) :
  (n <= length b)%nat ->
  foldl (count_square b) (0, 0) (seqZ 0 (Z.of_nat n)) =
  (Z.of_nat (count_mark X (take n b)), Z.of_nat (count_mark O (take n b))).
Proof.
  induction n as [|n IH]; intros Hn; [done|].
  destruct (lookup_lt_is_Some_2 b n ltac:(lia)) as [c Hc].
  rewrite seqZ_S, foldl_snoc, IH, Z.add_0_l by lia. rewrite (take_S_r _ _ _ Hc).
  unfold count_square, count_mark. rewrite (sq_of_lookup _ _ _ Hc), !filter_app, !length_app.
  destruct c as [[]|]; simpl; rewrite ?filter_cons; repeat case_decide; simpl;
    try congruence; f_equal; lia.
Qed.

(** The nested loop over a 3 x 3 grid visits the indices 0..8 in
    order, whatever its body. *)
Lemma nested_loop_flat {S} (f : S -> Z -> S) (s0 : S) :
  foldl (fun s i => foldl (fun s j => f s (i * rows + j)) s (seqZ 0 cols)) s0 (seqZ 0 rows) =
  foldl f s0 (seqZ 0 9).
Proof. reflexivity. Qed.

Lemma calculateNextValue_flat (squares : board) (initial : mark) :
  calculateNextValue squares initial =
  let count := foldl (count_square squares) (0, 0) (seqZ 0 9) in
  if count.1 =? count.2 then initial
  else if count.1 <? count.2 then X else O.
Proof. unfold calculateNextValue. by rewrite (nested_loop_flat (count_square squares)). Qed.

(** ** calculateWinner *)

(** The two endpoints [[r1,c1],[r2,c2]] of a winning triple. *)
Definition line : Type := ((Z * Z) * (Z * Z))%type.

(** The condition of an [if] that joins comparisons with [&]. *)
Definition js_and2 (b1 b2 : bool) : bool :=
  js_num_truthy (js_band (js_num_of_bool b1) (js_num_of_bool b2)).
Definition js_and3 (b1 b2 b3 : bool) : bool :=
  js_num_truthy (js_band (js_band (js_num_of_bool b1) (js_num_of_bool b2))
                         (js_num_of_bool b3)).

(** One iteration of the horizontal loop (lines 133-139). *)
Definition horizontal (squares : board) (i : Z) : option (jsval * line) :=
  let v := sq squares (i * rows + (cols - 1)) in
  if js_and3 (bool_decide (v <> Null))
             (bool_decide (v = sq squares (i * rows + (cols - 2))))
             (bool_decide (v = sq squares (i * rows + (cols - 3))))
  then Some (v, ((i, cols - 3), (i, cols - 1)))
  else None.

(** One iteration of the vertical loop (lines 142-148). *)
Definition vertical (squares : board) (j : Z) : option (jsval * line) :=
  let v := sq squares ((rows - 1) * rows + j) in
  if js_and3 (bool_decide (v <> Null))
             (bool_decide (v = sq squares ((rows - 2) * rows + j)))
             (bool_decide (v = sq squares ((rows - 3) * rows + j)))
  then Some (v, ((rows - 3, j), (rows - 1, j)))
  else None.

(** Line 151.  JavaScript's [/] is a real division; in each branch
    the dividend is even, so [Z.div] is exact. *)
Definition center (squares : board) : jsval :=
  if (rows * cols) mod 2 =? 1 then sq squares ((rows * cols + 1) / 2 - 1)
  else sq squares ((rows * cols) / 2 - 1).

(** The two diagonals (lines 154-163). *)
Definition diagonal (squares : board) : option (jsval * line) :=
  let c := center squares in
  if bool_decide (c <> Null) then
    if js_and2 (bool_decide (c = sq squares ((rows - 3) * rows + (cols - 3))))
               (bool_decide (c = sq squares ((rows - 1) * rows + (cols - 1))))
    then Some (c, ((rows - 3, cols - 3), (rows - 1, cols - 1)))
    else if js_and2 (bool_decide (c = sq squares ((rows - 3) * rows + (cols - 1))))
                    (bool_decide (c = sq squares ((rows - 1) * rows + (cols - 3))))
    then Some (c, ((rows - 3, cols - 1), (rows - 1, cols - 3)))
    else None
  else None.

(** Lines 131-166: [[winner, line]], or [[null, null]]. *)
Definition calculateWinner (squares : board) : jsval * option line :=
  match first_some (horizontal squares) (seqZ 0 rows) with
  | Some (w, l) => (w, Some l)
  | None =>
    match first_some (vertical squares) (seqZ 0 cols) with
    | Some (w, l) => (w, Some l)
    | None =>
      match diagonal squares with
      | Some (w, l) => (w, Some l)
      | None => (Null, None)
      end
    end
  end.

(** *** Specification of calculateWinner

    The eight lines of the 3 x 3 grid in the order the code scans them:
    the three indices it reads (the first one is the candidate winner)
    and the endpoints it reports. *)
Definition win_lines : list ((Z * Z * Z) * line) :=
  [((2, 1, 0), ((0, 0), (0, 2))); ((5, 4, 3), ((1, 0), (1, 2)));
   ((8, 7, 6), ((2, 0), (2, 2)));
   ((6, 3, 0), ((0, 0), (2, 0))); ((7, 4, 1), ((0, 1), (2, 1)));
   ((8, 5, 2), ((0, 2), (2, 2)));
   ((4, 0, 8), ((0, 0), (2, 2))); ((4, 2, 6), ((0, 2), (2, 0)))].

(** The mark that fills three read values, if one does. *)
Definition owner3 (v w u : jsval) : option mark :=
  match v with
  | Str m => if bool_decide (w = Str m /\ u = Str m) then Some m else None
  | _ => None
  end.

Definition line_winner (b : board) (t : (Z * Z * Z) * line) : option (mark * line) :=
  let '((k1, k2, k3), ln) := t in
  (fun m => (m, ln)) <$> owner3 (sq b k1) (sq b k2) (sq b k3).

(** The first line of [win_lines] that one mark fills. *)
Definition winner_spec (b : board) : option (mark * line) :=
  first_some (line_winner b) win_lines.

(** ** calculateStatus *)

(** [`${v}`] of a value read from the board. *)
Definition jsval_to_string (v : jsval) : string :=
  match v with
  | Undefined => "undefined"
  | Null => "null"
  | Str X => "X"
  | Str O => "O"
  end.

(** [Boolean(c)] for a square: the strings are non-empty. *)
Definition cell_truthy (c : cell) : bool :=
  match c with Some _ => true | None => false end.

(** Lines 168-174.  The caller passes [nextValue ?? null] (line 17);
    calculateNextValue always returns a mark, so that is [nextValue]. *)
Definition calculateStatus (winner : jsval) (squares : board) (nextValue : mark) : string :=
  if jsval_truthy winner then "Winner: " +:+ jsval_to_string winner
  else if forallb cell_truthy squares then "Scratch: Cat's game"
  else "Next player: " +:+ jsval_to_string (Str nextValue).

(** ** generateRandomInitial

    Lines 127-129: [['X','O'][Math.floor(Math.random()*2)]], with the
    number drawn by [Math.random()] passed as [r]. *)
Definition generateRandomInitial (r : Q) : option mark :=
  [X; O].[Qfloor (r * 2)].

(** ** Properties of calculateNextValue *)

Lemma calculateNextValue_counts (squares : board) (initial : mark) :
  length squares = 9%nat ->
  calculateNextValue squares initial =
  turn_spec (count_mark X squares) (count_mark O squares) initial.
Proof.
  intros Hlen. rewrite calculateNextValue_flat.
  change (seqZ 0 9) with (seqZ 0 (Z.of_nat 9)).
  rewrite count_square_fold, take_ge by lia. unfold turn_spec. simpl.
  destruct (Nat.eqb_spec (count_mark X squares) (count_mark O squares));
    destruct (Z.eqb_spec (Z.of_nat (count_mark X squares)) (Z.of_nat (count_mark O squares)));
    try lia; [done|].
  destruct (Nat.ltb_spec (count_mark X squares) (count_mark O squares));
    destruct (Z.ltb_spec (Z.of_nat (count_mark X squares)) (Z.of_nat (count_mark O squares)));
    lia || done.
Qed.

(** C5: the nested count loop computes the turn rule on the number of
    'X' and 'O' squares of a 9-square board. *)
Theorem calculateNextValue_turn (squares : board) (initial : mark) :
  length squares = 9%nat ->
  calculateNextValue squares initial =
  turn_spec (count_mark X squares) (count_mark O squares) initial.
Proof. apply calculateNextValue_counts. Qed.

(** ** calculateWinner against its specification *)

Lemma js_and3_owner (v w u : jsval) (ln : line) :
  v <> Undefined ->
  (if js_and3 (bool_decide (v <> Null)) (bool_decide (v = w)) (bool_decide (v = u))
   then Some (v, ln) else None) =
  (fun m => (Str m, ln)) <$> owner3 v w u.
Proof.
  intros Hv. destruct v as [| |[]], w as [| |[]], u as [| |[]]; done.
Qed.

Lemma js_and2_diag (c a d e f : jsval) (ln1 ln2 : line) :
  c <> Undefined ->
  (if bool_decide (c <> Null) then
     if js_and2 (bool_decide (c = a)) (bool_decide (c = d)) then Some (c, ln1)
     else if js_and2 (bool_decide (c = e)) (bool_decide (c = f)) then Some (c, ln2)
     else None
   else None) =
  match (fun m => (Str m, ln1)) <$> owner3 c a d with
  | Some r => Some r
  | None => (fun m => (Str m, ln2)) <$> owner3 c e f
  end.
Proof.
  intros Hc.
  destruct c as [| |[]], a as [| |[]], d as [| |[]]; try done;
    destruct e as [| |[]], f as [| |[]]; done.
Qed.

#[local] Arguments sq : simpl never.
#[local] Arguments owner3 : simpl never.

Lemma calculateWinner_first_line (b : board) :
  length b = 9%nat ->
  calculateWinner b =
  match winner_spec b with
  | Some (m, ln) => (Str m, Some ln)
  | None => (Null, None)
  end.
Proof.
  intros Hlen.
  unfold calculateWinner, winner_spec, horizontal, vertical, diagonal, center, rows, cols.
  change (seqZ 0 3) with [0; 1; 2].
  cbn -[sq owner3 js_and2 js_and3 bool_decide]. z_lits.
  rewrite !js_and3_owner, js_and2_diag by (apply sq_in_range; lia).
  repeat match goal with
         | |- context [owner3 ?a ?b ?c] => destruct (owner3 a b c); simpl
         end; reflexivity.
Qed.

(** C29: on a 9-square board, calculateWinner returns the first line of
    [win_lines] that one mark fills, with that mark and the line's
    endpoints, and [[null, null]] when no line is filled. *)
Theorem calculateWinner_spec (b : board) :
  length b = 9%nat ->
  calculateWinner b =
  match winner_spec b with
  | Some (m, ln) => (Str m, Some ln)
  | None => (Null, None)
  end.
Proof. apply calculateWinner_first_line. Qed.

(** *** Geometric specification of a win

    Independently of the code's index arithmetic: the square in row [r]
    and column [c] is [squares[r * cols + c]], and a mark wins when it
    fills a whole row, a whole column or one of the two diagonals. *)
Definition at_rc (b : board) (r c : Z) : jsval := sq b (r * cols + c).

Inductive wins (b : board) (m : mark) : Prop :=
  | wins_row r : 0 <= r < 3 -> (forall c, 0 <= c < 3 -> at_rc b r c = Str m) -> wins b m
  | wins_col c : 0 <= c < 3 -> (forall r, 0 <= r < 3 -> at_rc b r c = Str m) -> wins b m
  | wins_diag : (forall k, 0 <= k < 3 -> at_rc b k k = Str m) -> wins b m
  | wins_anti : (forall k, 0 <= k < 3 -> at_rc b k (2 - k) = Str m) -> wins b m.

(** The three squares a reported line covers: both endpoints and the
    square half-way between them. *)
Definition segment (ln : line) : list (Z * Z) :=
  let '((r1, c1), (r2, c2)) := ln in
  [(r1, c1); ((r1 + r2) / 2, (c1 + c2) / 2); (r2, c2)].

Definition segment_filled (b : board) (m : mark) (ln : line) : Prop :=
  Forall (fun p => at_rc b p.1 p.2 = Str m) (segment ln).

Lemma owner3_Some (v w u : jsval) (m : mark) :
  owner3 v w u = Some m <-> v = Str m /\ w = Str m /\ u = Str m.
Proof.
  unfold owner3. destruct v as [| |m']; [naive_solver|naive_solver|].
  case_bool_decide; naive_solver.
Qed.

Lemma line_winner_Some (b : board) k1 k2 k3 ln m ln' :
  line_winner b ((k1, k2, k3), ln) = Some (m, ln') <->
  ln' = ln /\ sq b k1 = Str m /\ sq b k2 = Str m /\ sq b k3 = Str m.
Proof.
  simpl. rewrite fmap_Some. setoid_rewrite owner3_Some. naive_solver.
Qed.

Lemma three_cases (k : Z) : 0 <= k < 3 -> k = 0 \/ k = 1 \/ k = 2.
Proof. lia. Qed.

(** Close [forall k, 0 <= k < 3 -> at_rc b .. = Str m] from the three
    facts in the context. *)
Ltac grid_cases :=
  let k := fresh "k" in let Hk := fresh "Hk" in
  intros k Hk; destruct (three_cases k Hk) as [E|[E|E]]; subst k; assumption.

Lemma win_lines_sound (b : board) (t : (Z * Z * Z) * line) (m : mark) (ln : line) :
  t ∈ win_lines -> line_winner b t = Some (m, ln) ->
  wins b m /\ segment_filled b m ln.
Proof.
  intros Ht Hw.
  repeat (apply elem_of_cons in Ht as [->|Ht]);
    [..|by apply not_elem_of_nil in Ht];
    apply line_winner_Some in Hw as (-> & H1 & H2 & H3);
    (split; [|repeat constructor; assumption]).
  - apply (wins_row _ _ 0); [lia|grid_cases].
  - apply (wins_row _ _ 1); [lia|grid_cases].
  - apply (wins_row _ _ 2); [lia|grid_cases].
  - apply (wins_col _ _ 0); [lia|grid_cases].
  - apply (wins_col _ _ 1); [lia|grid_cases].
  - apply (wins_col _ _ 2); [lia|grid_cases].
  - apply wins_diag; grid_cases.
  - apply wins_anti; grid_cases.
Qed.

(** Name the line of [win_lines] a win fills. *)
Ltac pick_line t :=
  exists t; split;
  [ unfold win_lines; repeat (apply elem_of_cons; (left; reflexivity) || right)
  | apply line_winner_Some; repeat split; assumption ].

Lemma wins_win_lines (b : board) (m : mark) :
  wins b m -> exists t, t ∈ win_lines /\ line_winner b t = Some (m, t.2).
Proof.
  intros [r Hr H|c Hc H|H|H];
    pose proof (H 0 ltac:(lia)); pose proof (H 1 ltac:(lia)); pose proof (H 2 ltac:(lia)).
  - destruct (three_cases r Hr) as [E|[E|E]]; subst r.
    + pick_line ((2, 1, 0), ((0, 0), (0, 2))).
    + pick_line ((5, 4, 3), ((1, 0), (1, 2))).
    + pick_line ((8, 7, 6), ((2, 0), (2, 2))).
  - destruct (three_cases c Hc) as [E|[E|E]]; subst c.
    + pick_line ((6, 3, 0), ((0, 0), (2, 0))).
    + pick_line ((7, 4, 1), ((0, 1), (2, 1))).
    + pick_line ((8, 5, 2), ((0, 2), (2, 2))).
  - pick_line ((4, 0, 8), ((0, 0), (2, 2))).
  - pick_line ((4, 2, 6), ((0, 2), (2, 0))).
Qed.

Lemma winner_spec_Some (b : board) (m : mark) (ln : line) :
  winner_spec b = Some (m, ln) -> wins b m /\ segment_filled b m ln.
Proof.
  intros (t & Ht & Hw)%first_some_Some. by eapply win_lines_sound.
Qed.

Lemma winner_spec_None (b : board) :
  winner_spec b = None <-> forall m, ~ wins b m.
Proof.
  split.
  - intros Hn m (t & Ht & Hw)%wins_win_lines.
    destruct (first_some_elem_of _ _ _ _ Ht Hw) as [? Hs]. unfold winner_spec in Hn. congruence.
  - intros Hn. destruct (winner_spec b) as [[m ln]|] eqn:E; [|done].
    exfalso. apply (Hn m). by apply winner_spec_Some in E as [].
Qed.

(** C3: on a 9-square board calculateWinner reports no winner
    ([[null, null]]) exactly when no mark fills a row, a column or a
    diagonal. *)
Theorem calculateWinner_none_iff (b : board) :
  length b = 9%nat ->
  (calculateWinner b = (Null, None) <-> forall m, ~ wins b m).
Proof.
  intros Hlen. rewrite calculateWinner_first_line, <- winner_spec_None by done.
  destruct (winner_spec b) as [[m ln]|]; naive_solver.
Qed.

(** C4: on a 9-square board, whatever calculateWinner reports is a
    mark that wins, together with endpoints whose segment (both ends
    and the middle square) that mark fills. *)
Theorem calculateWinner_sound (b : board) (w : jsval) (ln : line) :
  length b = 9%nat -> calculateWinner b = (w, Some ln) ->
  exists m, w = Str m /\ wins b m /\ segment_filled b m ln.
Proof.
  intros Hlen. rewrite calculateWinner_first_line by done.
  destruct (winner_spec b) as [[m ln']|] eqn:E; intros Hw; simplify_eq.
  exists m. split; [done|]. by apply winner_spec_Some.
Qed.

(** ** Wins across a move *)

Lemma wins_insert_other (b : board) (i : nat) (m m' : mark) :
  m' <> m -> wins (<[i := Some m]> b) m' -> wins b m'.
Proof.
  intros Hne Hw. unfold at_rc in *.
  destruct Hw as [r Hr H|c Hc H|H|H];
    [apply (wins_row _ _ r Hr)|apply (wins_col _ _ c Hc)|apply wins_diag|apply wins_anti];
    intros k Hk; eapply sq_insert_other; eauto.
Qed.

Lemma wins_empty_board (m : mark) : ~ wins empty_board m.
Proof.
  unfold at_rc. intros Hw.
  destruct Hw as [r Hr H|c Hc H|H|H]; [specialize (H 0 ltac:(lia))|specialize (H 0 ltac:(lia))
    |specialize (H 0 ltac:(lia))|specialize (H 0 ltac:(lia))];
    destruct m; by apply sq_empty_board in H.
Qed.

(** ** Properties of calculateStatus *)

Lemma forallb_cell_truthy (b : board) :
  forallb cell_truthy b = true <-> filled b = length b.
Proof.
  unfold filled. induction b as [|c b IH]; [done|].
  rewrite filter_cons. simpl. pose proof (length_filter is_Some b).
  destruct c; simpl; rewrite ?decide_True, ?decide_False by (rewrite ?is_Some_alt; naive_solver);
    simpl; rewrite ?IH; lia.
Qed.

(** C30: the status line of a 9-square board names the winner when a
    mark fills a line, reports the cat's game when no mark wins and all
    squares are filled, and otherwise names the player given by the
    turn rule. *)
Theorem calculateStatus_cases (b : board) (initial : mark) :
  length b = 9%nat ->
  let status := calculateStatus (calculateWinner b).1 b (calculateNextValue b initial) in
  (exists m, wins b m /\ status = "Winner: " +:+ jsval_to_string (Str m)) \/
  ((forall m, ~ wins b m) /\ filled b = 9%nat /\ status = "Scratch: Cat's game") \/
  ((forall m, ~ wins b m) /\ (filled b < 9)%nat /\
   status = "Next player: " +:+
              jsval_to_string (Str (turn_spec (count_mark X b) (count_mark O b) initial))).
Proof.
  intros Hlen. simpl. rewrite calculateNextValue_counts, calculateWinner_first_line by done.
  destruct (winner_spec b) as [[m ln]|] eqn:Ew; simpl.
  - left. exists m. split; [by apply winner_spec_Some in Ew as []|done].
  - right. pose proof (proj1 (winner_spec_None b) Ew) as Hn. unfold calculateStatus. simpl.
    pose proof (filled_le_length b).
    destruct (forallb cell_truthy b) eqn:F; [left|right].
    + apply forallb_cell_truthy in F. auto with lia.
    + assert (filled b <> length b) by (rewrite <- forallb_cell_truthy; congruence).
      auto with lia.
Qed.

(** ** Properties of generateRandomInitial *)

Lemma Qfloor_double (r : Q) :
  (0 <= r < 1)%Q ->
  (Qfloor (r * 2) = 0%Z /\ r < 1 # 2)%Q \/ (Qfloor (r * 2) = 1%Z /\ 1 # 2 <= r)%Q.
Proof.
  intros [H0 H1]. pose proof (Qfloor_le (r * 2)) as Hle. pose proof (Qlt_floor (r * 2)) as Hlt.
  rewrite inject_Z_plus in Hlt. change (inject_Z 1) with 1%Q in Hlt.
  set (z := Qfloor (r * 2)) in *.
  assert (-1 < z < 2)%Z as Hz.
  { rewrite !Zlt_Qlt. change (inject_Z (-1)) with (-1)%Q. change (inject_Z 2) with 2%Q. lra. }
  destruct (Z.eq_dec z 0) as [E|E]; [left|right].
  - rewrite E in Hlt. change (inject_Z 0) with 0%Q in Hlt. split; [done|lra].
  - assert (z = 1%Z) as E1 by lia. rewrite E1 in Hle. change (inject_Z 1) with 1%Q in Hle.
    split; [done|lra].
Qed.

Lemma generateRandomInitial_range (r : Q) :
  (0 <= r < 1)%Q ->
  generateRandomInitial r = Some (if Qlt_le_dec r (1 # 2)%Q then X else O).
Proof.
  intros Hr. unfold generateRandomInitial.
  destruct (Qfloor_double r Hr) as [[-> Hh]|[-> Hh]];
    destruct (Qlt_le_dec r (1 # 2)%Q); try done; exfalso; lra.
Qed.

(** C31: for the numbers [Math.random()] returns, [0 <= r < 1], the
    index [Math.floor(r*2)] is in range and the initial player is 'X'
    on [[0, 1/2)] and 'O' on [[1/2, 1)]: never [undefined]. *)
Theorem generateRandomInitial_spec (r : Q) :
  (0 <= r < 1)%Q ->
  generateRandomInitial r = Some (if Qlt_le_dec r (1 # 2)%Q then X else O).
Proof. apply generateRandomInitial_range. Qed.

(** ** What the engine promises the component

    The [Board] component (Controller.v) uses two engine functions at
    each render: [nextValue] and the [winner] part of calculateWinner.
    [GameRules] states what it relies on from them, on 9-square boards:
    the next mark follows the turn rule, and the winner is [null]
    exactly when no mark wins.  The component's invariants are proved
    from these laws; [engine_rules] discharges them for the code. *)
Class GameRules (next : board -> mark -> mark) (winner_of : board -> jsval) := {
  rules_turn (b : board) (init : mark) :
    length b = 9%nat -> next b init = turn_spec (count_mark X b) (count_mark O b) init;
  rules_no_winner (b : board) :
    length b = 9%nat -> winner_of b = Null <-> forall m, ~ wins b m
}.

#[export] Instance engine_rules :
  GameRules calculateNextValue (fun b => (calculateWinner b).1).
Proof.
  split.
  - apply calculateNextValue_counts.
  - intros b Hlen. rewrite calculateWinner_first_line by done.
    rewrite <- winner_spec_None. destruct (winner_spec b) as [[]|]; naive_solver.
Qed.
