(* ===== verification/Controller.v ===== *)
(** * Controller: the [Board] component of src/src/Game.js

    The component keeps four pieces of state (lines 10-13): the
    current [squares], the [initial] mark, the [gameHistory] of boards
    and the index [gameIdx] into it.  At every render it derives
    [nextValue], [winner] and [status] from [squares] (lines 15-17); the
    click handlers selectSquare, previous, next and restart (lines
    21-49) compute the next state from the state of that render. *)

From S2P Require Import Prelude Board Engine.
From Stdlib Require Import QArith.
From stdpp Require Import strings.
Local Open Scope Z_scope.

(** ** State and handlers *)

Record state := mkState {
  squares : board;           (** [useLocalStorage('board', ...)], line 10 *)
  initial : mark;            (** [useLocalStorage('randInitial', ...)], line 11 *)
  gameHistory : list board;  (** line 12 *)
  gameIdx : Z                (** [useLocalStorage('gameIdx', 0)], line 13 *)
}.

(** Lines 15-16: what the render derives from [squares]. *)
Definition nextValue (s : state) : mark := calculateNextValue (squares s) (initial s).
Definition winner (s : state) : jsval := (calculateWinner (squares s)).1.

(** Line 17. *)
Definition status (s : state) : string := calculateStatus (winner s) (squares s) (nextValue s).

(** Lines 21-31.  The handler returns early (the state is unchanged)
    when there is a winner, when [squares[square]] is not [null], or
    when [gameIdx] is not the last index of [gameHistory]; otherwise it
    writes [nextValue] into a copy of [squares], appends the copy to
    [gameHistory] and advances [gameIdx].  The write is only reached
    when [squares[square]] is [null], so [square] is in range there. *)
Definition selectSquare (s : state) (square : Z) : state :=
  if bool_decide (winner s <> Null) || bool_decide (sq (squares s) square <> Null)
     || (gameIdx s + 1 <? Z.of_nat (length (gameHistory s)))
  then s
  else
    let squaresCopy := <[Z.to_nat square := Some (nextValue s)]> (squares s) in
    {| squares := squaresCopy;
       initial := initial s;
       gameHistory := gameHistory s ++ [squaresCopy];
       gameIdx := gameIdx s + 1 |}.

(** Lines 33-36.  The handler has no guard of its own: when
    [gameHistory[gameIdx-1]] is [undefined], [squares] becomes
    [undefined] and the next render throws in calculateNextValue; that
    outcome is [None]. *)
Definition previous (s : state) : option state :=
  match (gameHistory s).[gameIdx s - 1] with
  | Some b => Some {| squares := b; initial := initial s;
                      gameHistory := gameHistory s; gameIdx := gameIdx s - 1 |}
  | None => None
  end.

(** Lines 38-41, the same way. *)
Definition next (s : state) : option state :=
  match (gameHistory s).[gameIdx s + 1] with
  | Some b => Some {| squares := b; initial := initial s;
                      gameHistory := gameHistory s; gameIdx := gameIdx s + 1 |}
  | None => None
  end.

(** Lines 43-49, with the mark drawn by [generateRandomInitial()]
    passed as [drawn].  [localStorage.removeItem('randInitial')] only
    touches storage, which [setInitial] overwrites at once. *)
Definition restart (s : state) (drawn : mark) : state :=
  {| squares := empty_board; initial := drawn;
     gameHistory := [empty_board]; gameIdx := 0 |}.

(** Lines 82 and 85: the buttons' [disabled] attributes. *)
Definition previous_enabled (s : state) : bool := negb (gameIdx s <? 1).
Definition next_enabled (s : state) : bool :=
  negb (Z.of_nat (length (gameHistory s)) <=? gameIdx s + 1).

(** ** The page as a transition system

    A user event runs one handler: a click on one of the nine squares
    rendered at lines 64-76, a click on [previous] or [next] while the
    button is enabled (the browser does not fire [onClick] on a
    disabled button), or a click on [restart] with the number drawn by
    [Math.random()]. *)
Inductive ui_step : state -> state -> Prop :=
  | ui_click s i :
      0 <= i < 9 -> ui_step s (selectSquare s i)
  | ui_previous s s' :
      previous_enabled s = true -> previous s = Some s' -> ui_step s s'
  | ui_next s s' :
      next_enabled s = true -> next s = Some s' -> ui_step s s'
  | ui_restart s r m :
      (0 <= r < 1)%Q -> generateRandomInitial r = Some m -> ui_step s (restart s m).

(** The states of a game: those reached from a restart. *)
Inductive reachable : state -> Prop :=
  | reach_restart s r m :
      (0 <= r < 1)%Q -> generateRandomInitial r = Some m -> reachable (restart s m)
  | reach_step s s' : reachable s -> ui_step s s' -> reachable s'.

(** ** The invariant of the history *)

(** A legal move: [b'] is [b] with one [null] square set to the mark
    whose turn it is, on a board without a winner. *)
Definition legal_move (init : mark) (b b' : board) : Prop :=
  exists i, b !! i = Some None /\ (calculateWinner b).1 = Null /\
            b' = <[i := Some (calculateNextValue b init)]> b.

Definition history_moves (init : mark) (h : list board) : Prop :=
  forall k b b', h !! k = Some b -> h !! S k = Some b' -> legal_move init b b'.

Record wf (s : state) : Prop := {
  wf_idx : 0 <= gameIdx s < Z.of_nat (length (gameHistory s));
  wf_cur : (gameHistory s).[gameIdx s] = Some (squares s);
  wf_start : gameHistory s !! 0%nat = Some empty_board;
  wf_moves : history_moves (initial s) (gameHistory s)
}.

Create HintDb controller discriminated.

(** ** Lemmas on the history *)

Lemma history_moves_snoc (init : mark) (h : list board) (b b' : board) :
  h !! (length h - 1)%nat = Some b -> legal_move init b b' ->
  history_moves init h -> history_moves init (h ++ [b']).
Proof.
  intros Hb Hm Hh k c c' Hc Hc'.
  pose proof (lookup_lt_Some _ _ _ Hc') as Hlt. rewrite length_app in Hlt. simpl in Hlt.
  destruct (decide (S k < length h)%nat).
  - rewrite lookup_app_l in Hc, Hc' by lia. eauto.
  - assert (k = length h - 1)%nat by lia. subst k.
    rewrite lookup_app_l in Hc by lia. rewrite lookup_app_r in Hc' by lia.
    replace (S (length h - 1) - length h)%nat with 0%nat in Hc' by lia.
    rewrite Hb in Hc. simplify_eq/=. done.
Qed.

Lemma history_moves_single (init : mark) (b : board) : history_moves init [b].
Proof. intros [|k] ? ? ? H; done. Qed.

#[export] Hint Resolve history_moves_single : controller.

(** The accepted branch of selectSquare, read off its guard. *)
Lemma selectSquare_guard (s : state) (i : Z) :
  wf s ->
  (bool_decide (winner s <> Null) || bool_decide (sq (squares s) i <> Null)
   || (gameIdx s + 1 <? Z.of_nat (length (gameHistory s)))) = false ->
  winner s = Null /\ 0 <= i /\ squares s !! Z.to_nat i = Some None /\
  gameIdx s + 1 = Z.of_nat (length (gameHistory s)).
Proof.
  intros Hwf G. apply orb_false_iff in G as [G Hi]. apply orb_false_iff in G as [Hw Hs].
  apply bool_decide_eq_false, dec_stable in Hw, Hs. apply Z.ltb_ge in Hi.
  destruct (sq_Null_lookup _ _ Hs). pose proof (wf_idx s Hwf). repeat split; auto with lia.
Qed.

(** The state after an accepted click. *)
Lemma selectSquare_accepted_eq (s : state) (i : Z) :
  winner s = Null -> sq (squares s) i = Null ->
  gameIdx s + 1 = Z.of_nat (length (gameHistory s)) ->
  selectSquare s i =
  {| squares := <[Z.to_nat i := Some (nextValue s)]> (squares s);
     initial := initial s;
     gameHistory := gameHistory s ++ [<[Z.to_nat i := Some (nextValue s)]> (squares s)];
     gameIdx := gameIdx s + 1 |}.
Proof.
  intros Hw Hsq Hl. unfold selectSquare. rewrite ?Hw, ?Hsq, ?(proj2 (Z.ltb_ge _ _)) by lia.
  reflexivity.
Qed.

(** ** The invariant holds in every state of a game *)

Lemma wf_restart (s : state) (m : mark) : wf (restart s m).
Proof.
  split; simpl; [lia|done|done|auto with controller].
Qed.

(** Moving [gameIdx] to another index of the history, with [squares]
    read from there, keeps the invariant: previous and next do this. *)
Lemma wf_goto (s : state) (j : Z) (b : board) :
  wf s -> (gameHistory s).[j] = Some b ->
  wf {| squares := b; initial := initial s; gameHistory := gameHistory s; gameIdx := j |}.
Proof.
  intros [] Hj. pose proof (js_at_Some_range _ _ _ Hj). split; simpl; auto.
Qed.

Lemma wf_selectSquare (s : state) (i : Z) : wf s -> wf (selectSquare s i).
Proof.
  intros Hwf. unfold selectSquare. destruct (_ || _ || _) eqn:G; [done|].
  destruct (selectSquare_guard s i Hwf G) as (Hw & Hi0 & Hsq & Hlast).
  destruct Hwf as [Hidx Hcur Hstart Hmoves].
  assert (Hcur' : gameHistory s !! (length (gameHistory s) - 1)%nat = Some (squares s)).
  { rewrite js_at_nonneg in Hcur by lia. rewrite <- Hcur. f_equal. lia. }
  split; simpl.
  - rewrite length_app. simpl. lia.
  - rewrite Hlast. apply js_at_app_last.
  - rewrite lookup_app_l; [done|]. pose proof (lookup_lt_Some _ _ _ Hstart). lia.
  - apply (history_moves_snoc _ _ (squares s)); [done| |done].
    exists (Z.to_nat i). split; [done|]. split; [done|]. done.
Qed.

Lemma wf_previous (s s' : state) : wf s -> previous s = Some s' -> wf s'.
Proof.
  intros Hwf. unfold previous. destruct (_.[_]) eqn:E; intros; simplify_eq. by apply wf_goto.
Qed.

Lemma wf_next (s s' : state) : wf s -> next s = Some s' -> wf s'.
Proof.
  intros Hwf. unfold next. destruct (_.[_]) eqn:E; intros; simplify_eq. by apply wf_goto.
Qed.

#[export] Hint Resolve wf_restart wf_selectSquare wf_previous wf_next : controller.

Lemma wf_ui_step (s s' : state) : wf s -> ui_step s s' -> wf s'.
Proof. intros Hwf Hs. destruct Hs; eauto with controller. Qed.

Lemma reachable_wf (s : state) : reachable s -> wf s.
Proof. induction 1; eauto using wf_ui_step with controller. Qed.

(** ** What the invariant says about each board of the history *)

Definition other (m : mark) : mark := match m with X => O | O => X end.

(** The player who moves first has as many squares as the other, or
    one more. *)
Definition balanced (init : mark) (b : board) : Prop :=
  count_mark init b = count_mark (other init) b \/
  count_mark init b = S (count_mark (other init) b).

Lemma balanced_empty (init : mark) : balanced init empty_board.
Proof. left. by destruct init. Qed.

Lemma balanced_move (init : mark) (b : board) (i : nat) :
  length b = 9%nat -> b !! i = Some None -> balanced init b ->
  balanced init (<[i := Some (calculateNextValue b init)]> b).
Proof.
  intros Hlen Hi Hb. rewrite rules_turn by done. unfold turn_spec, balanced in *.
  destruct init; simpl in *;
    destruct (Nat.eqb_spec (count_mark X b) (count_mark O b));
    try destruct (Nat.ltb_spec (count_mark X b) (count_mark O b));
    rewrite ?count_mark_insert_same, ?count_mark_insert_other by done; lia.
Qed.

(** C1: every user event keeps the invariant: [0 <= gameIdx <
    gameHistory.length], [squares] is [gameHistory[gameIdx]], the
    history starts with the empty board and each later board is a legal
    move from the one before it. *)
Theorem ui_step_wf (s s' : state) : wf s -> ui_step s s' -> wf s'.
Proof. apply wf_ui_step. Qed.

Lemma legal_move_facts (init : mark) (b b' : board) :
  length b = 9%nat -> balanced init b -> legal_move init b b' ->
  length b' = 9%nat /\ filled b' = S (filled b) /\ balanced init b'.
Proof.
  intros Hlen Hbal (i & Hi & _ & ->).
  rewrite length_insert, filled_insert by done. auto using balanced_move.
Qed.

(** Board [k] of the history holds [k] marks, has 9 squares and is
    balanced. *)
Lemma history_board (init : mark) (h : list board) (k : nat) (b : board) :
  h !! 0%nat = Some empty_board -> history_moves init h -> h !! k = Some b ->
  length b = 9%nat /\ filled b = k /\ balanced init b.
Proof.
  intros H0 Hm. revert b. induction k as [|k IH]; intros b Hk.
  - rewrite H0 in Hk. simplify_eq. split; [done|]. split; [done|]. apply balanced_empty.
  - destruct (lookup_lt_is_Some_2 h k) as [c Hc].
    { apply lookup_lt_Some in Hk. lia. }
    destruct (IH c Hc) as (? & ? & ?).
    destruct (legal_move_facts init c b) as (? & ? & ?); eauto with lia.
Qed.

Lemma wf_history_board (s : state) (k : nat) (b : board) :
  wf s -> gameHistory s !! k = Some b ->
  length b = 9%nat /\ filled b = k /\ balanced (initial s) b.
Proof. intros [] Hk. eauto using history_board. Qed.

Lemma wf_squares_in_history (s : state) :
  wf s -> gameHistory s !! Z.to_nat (gameIdx s) = Some (squares s).
Proof. intros []. by rewrite <- js_at_nonneg by lia. Qed.

(** ** Properties of the handlers *)

(** C9: in every state of a game, every board of the history (the
    current one included) has as many 'X' as 'O' squares, up to one. *)
Theorem reachable_balanced (s : state) (k : nat) (b : board) :
  reachable s -> gameHistory s !! k = Some b ->
  Z.abs (Z.of_nat (count_mark X b) - Z.of_nat (count_mark O b)) <= 1.
Proof.
  intros Hr Hk. destruct (wf_history_board s k b (reachable_wf s Hr) Hk) as (_ & _ & Hb).
  unfold balanced in Hb. destruct (initial s); simpl in Hb; lia.
Qed.

(** C26: a game holds at most ten boards: the empty one and one per
    move, and a move needs a [null] square of the 9. *)
Theorem reachable_history_bound (s : state) :
  reachable s -> (length (gameHistory s) <= 10)%nat.
Proof.
  intros Hr. pose proof (reachable_wf s Hr) as Hwf. pose proof (wf_idx s Hwf).
  destruct (lookup_lt_is_Some_2 (gameHistory s) (length (gameHistory s) - 1)) as [b Hb]; [lia|].
  destruct (wf_history_board s _ b Hwf Hb) as (Hl & Hf & _).
  pose proof (filled_le_length b). lia.
Qed.

Lemma selectSquare_unchanged (s : state) (i : Z) :
  wf s ->
  winner s <> Null \/ sq (squares s) i <> Null \/
  gameIdx s + 1 <> Z.of_nat (length (gameHistory s)) ->
  selectSquare s i = s.
Proof.
  intros Hwf Hrej. unfold selectSquare. destruct (_ || _ || _) eqn:G; [done|].
  destruct (selectSquare_guard s i Hwf G) as (Hw & Hi0 & Hsq & Hlast).
  exfalso. destruct Hrej as [H|[H|H]]; [done| |done].
  apply H. unfold sq. rewrite js_at_nonneg, Hsq by done. done.
Qed.

(** C6: selectSquare leaves the state unchanged when the board has a
    winner, when the square is not [null] (occupied or out of range), or
    when [gameIdx] is not the last index of the history (the spec's
    [Cursor + 1 != length]; the code tests [<], the same under the
    invariant). *)
Theorem selectSquare_rejects (s : state) (i : Z) :
  wf s ->
  winner s <> Null \/ sq (squares s) i <> Null \/
  gameIdx s + 1 <> Z.of_nat (length (gameHistory s)) ->
  selectSquare s i = s.
Proof. apply selectSquare_unchanged. Qed.

(** C19: an accepted click appends the new board to the history and
    makes it current; the new board is the old one with square [i] set
    to the mark the turn rule names (fewer squares, or [initial] on a
    tie) and every other square unchanged. *)
Theorem selectSquare_accepts (s : state) (i : Z) :
  wf s -> winner s = Null -> sq (squares s) i = Null ->
  gameIdx s + 1 = Z.of_nat (length (gameHistory s)) ->
  let s' := selectSquare s i in
  gameHistory s' = gameHistory s ++ [squares s'] /\ gameIdx s' = gameIdx s + 1 /\
  squares s' !! Z.to_nat i =
    Some (Some (turn_spec (count_mark X (squares s)) (count_mark O (squares s)) (initial s))) /\
  (forall j, j <> Z.to_nat i -> squares s' !! j = squares s !! j).
Proof.
  intros Hwf Hw Hsq Hlast. destruct (sq_Null_lookup _ _ Hsq) as [Hi0 Hi].
  rewrite selectSquare_accepted_eq by done. simpl.
  destruct (wf_history_board s _ _ Hwf (wf_squares_in_history s Hwf)) as (Hlen & _).
  unfold nextValue. rewrite rules_turn by done.
  repeat split; [rewrite list_lookup_insert_eq; [done|]; by apply lookup_lt_Some in Hi|].
  intros j Hj. by rewrite list_lookup_insert_ne.
Qed.

(** C20: undoing an accepted click with previous restores the board
    and the index of before the click; the history keeps the new board
    (for next to return to it). *)
Theorem selectSquare_previous (s : state) (i : Z) :
  wf s -> selectSquare s i <> s ->
  previous (selectSquare s i) =
  Some {| squares := squares s; initial := initial s;
          gameHistory := gameHistory (selectSquare s i); gameIdx := gameIdx s |}.
Proof.
  intros Hwf Hne. unfold selectSquare in *. destruct (_ || _ || _) eqn:G; [congruence|].
  destruct (selectSquare_guard s i Hwf G) as (_ & _ & _ & Hlast).
  unfold previous. simpl. replace (gameIdx s + 1 - 1) with (gameIdx s) by lia.
  rewrite js_at_app_l by lia. by rewrite (wf_cur s Hwf).
Qed.

(** C21: next undoes previous. *)
Theorem previous_next (s s' : state) :
  wf s -> previous s = Some s' -> next s' = Some s.
Proof.
  intros Hwf. unfold previous, next. destruct (_.[_]) eqn:E; intros; simplify_eq/=.
  replace (gameIdx s - 1 + 1) with (gameIdx s) by lia.
  rewrite (wf_cur s Hwf). by destruct s.
Qed.

(** C27: the previous handler has no guard of its own: run at
    [gameIdx = 0] it reads [gameHistory[-1]], which is [undefined], and
    the page fails at the next render.  Only the [disabled] attribute of
    the button (line 82) keeps a user from reaching it. *)
Theorem previous_at_start (s : state) : gameIdx s = 0 -> previous s = None.
Proof. intros H. unfold previous. rewrite H, js_at_neg by lia. done. Qed.

Lemma history_move_mark (s : state) (k : nat) (b b' : board) :
  reachable s -> gameHistory s !! k = Some b -> gameHistory s !! S k = Some b' ->
  exists i, b !! i = Some None /\
    b' = <[i := Some (if Nat.even k then initial s else other (initial s))]> b.
Proof.
  intros Hr Hk Hk'. pose proof (reachable_wf s Hr) as Hwf.
  destruct (wf_history_board s k b Hwf Hk) as (Hlen & Hf & Hbal).
  destruct (wf_moves s Hwf k b b' Hk Hk') as (i & Hi & _ & ->).
  exists i. split; [done|]. do 2 f_equal. rewrite rules_turn by done.
  rewrite filled_counts in Hf. unfold turn_spec, balanced in *.
  destruct (Nat.even_spec k) as [_ Hev]. destruct (Nat.even k) eqn:Ek.
  - (* even: the counts are equal *)
    destruct (initial s); simpl in *; rewrite (proj2 (Nat.eqb_eq _ _)) by
      (destruct Hbal as [|Hb]; [lia|]; exfalso; apply Nat.even_spec in Ek as [q ?]; lia); done.
  - (* odd: the first player is one ahead *)
    assert (Hodd : Nat.Odd k) by (apply Nat.odd_spec; by rewrite <- Nat.negb_even, Ek).
    destruct Hodd as [q ?].
    destruct (initial s); simpl in *; destruct Hbal; try lia;
      rewrite (proj2 (Nat.eqb_neq _ _)) by lia;
      [rewrite (proj2 (Nat.ltb_ge _ _)) | rewrite (proj2 (Nat.ltb_lt _ _))]; lia || done.
Qed.

(** C10: in a game the players alternate: move [k] (from 0) is made by
    [initial] when [k] is even and by the other player when [k] is odd,
    on a square that was [null]. *)
Theorem reachable_alternation (s : state) (k : nat) (b b' : board) :
  reachable s -> gameHistory s !! k = Some b -> gameHistory s !! S k = Some b' ->
  exists i, b !! i = Some None /\
    b' = <[i := Some (if Nat.even k then initial s else other (initial s))]> b.
Proof. apply history_move_mark. Qed.

(** ** Winners and progress *)

Lemma winner_is_mover (s : state) (k : nat) (b' : board) (m : mark) :
  reachable s -> gameHistory s !! S k = Some b' -> wins b' m ->
  m = if Nat.even k then initial s else other (initial s).
Proof.
  intros Hr Hk' Hw. pose proof (reachable_wf s Hr) as Hwf.
  destruct (lookup_lt_is_Some_2 (gameHistory s) k) as [b Hk].
  { apply lookup_lt_Some in Hk'. lia. }
  destruct (wf_history_board s k b Hwf Hk) as (Hlen & _).
  destruct (wf_moves s Hwf k b b' Hk Hk') as (i & _ & Hnw & _).
  destruct (history_move_mark s k b b' Hr Hk Hk') as (j & _ & ->).
  destruct (decide (m = (if Nat.even k then initial s else other (initial s)))) as [|Hne]; [done|].
  exfalso. apply (proj1 (rules_no_winner (winner_of := fun b => (calculateWinner b).1) b Hlen) Hnw m).
  by eapply wins_insert_other.
Qed.

(** C12: in a game, a board that some mark wins was produced by a move
    of that mark: the winner of board [k+1] is the player of move [k]. *)
Theorem reachable_winner_last_mover (s : state) (k : nat) (b' : board) (m : mark) :
  reachable s -> gameHistory s !! S k = Some b' -> wins b' m ->
  m = if Nat.even k then initial s else other (initial s).
Proof. apply winner_is_mover. Qed.

(** C11: no board of a game is won by both players. *)
Theorem reachable_single_winner (s : state) (k : nat) (b : board) :
  reachable s -> gameHistory s !! k = Some b -> ~ (wins b X /\ wins b O).
Proof.
  intros Hr Hk [HX HO]. destruct k as [|k].
  - rewrite (wf_start s (reachable_wf s Hr)) in Hk. simplify_eq.
    by apply (wins_empty_board X).
  - pose proof (winner_is_mover s k b X Hr Hk HX).
    pose proof (winner_is_mover s k b O Hr Hk HO). congruence.
Qed.

(** C13: a game cannot get stuck: at the end of its history, with no
    winner and a free square, some click on the board is accepted and
    extends the history. *)
Theorem reachable_progress (s : state) :
  reachable s -> gameIdx s + 1 = Z.of_nat (length (gameHistory s)) ->
  winner s = Null -> (filled (squares s) < 9)%nat ->
  exists i : Z, (0 <= i < 9) /\ ui_step s (selectSquare s i) /\
    length (gameHistory (selectSquare s i)) = S (length (gameHistory s)).
Proof.
  intros Hr Hlast Hw Hf. pose proof (reachable_wf s Hr) as Hwf.
  destruct (wf_history_board s _ _ Hwf (wf_squares_in_history s Hwf)) as (Hlen & _).
  destruct (exists_null (squares s)) as [k Hk]; [lia|].
  pose proof (lookup_lt_Some _ _ _ Hk).
  assert (Hsq : sq (squares s) (Z.of_nat k) = Null) by (rewrite sq_Null_iff, Nat2Z.id by lia; done).
  exists (Z.of_nat k). split; [lia|]. split; [constructor; lia|].
  rewrite selectSquare_accepted_eq by done. simpl. rewrite length_app. simpl. lia.
Qed.

(** ** Boundaries *)

(** C28: the next handler has no guard either: at the last index of the
    history it reads [gameHistory[gameIdx+1]], which is [undefined], and
    the page fails at the next render; only the [disabled] attribute of
    the button (line 85) keeps a user from reaching it. *)
Theorem next_at_end (s : state) :
  wf s -> gameIdx s + 1 = Z.of_nat (length (gameHistory s)) -> next s = None.
Proof.
  intros Hwf Hlast. unfold next. rewrite Hlast, js_at_of_nat, lookup_ge_None_2 by lia. done.
Qed.

(** C7: a click outside the nine squares ([square < 0] or [square >= 9])
    changes nothing: [squares[square]] is [undefined], which is not
    [null], so the handler returns before writing (where a write would
    have extended the array). *)
Theorem selectSquare_out_of_range (s : state) (i : Z) :
  wf s -> i < 0 \/ 9 <= i -> selectSquare s i = s.
Proof.
  intros Hwf Hi.
  destruct (wf_history_board s _ _ Hwf (wf_squares_in_history s Hwf)) as [Hlen _].
  unfold selectSquare. rewrite (sq_out_of_range (squares s) i) by lia.
  rewrite (bool_decide_eq_true_2 (Undefined <> Null)) by done. by rewrite orb_true_r.
Qed.
