(* ===== verification/Moves.v ===== *)
(** * Moves: the shape of the state and the end of every game

    Consequences of the invariant of Controller.v for the sequence of
    accepted clicks: the arrays the component keeps always have the
    shape the code expects (a type invariant for a dynamically typed
    program), and a game admits no infinite sequence of accepted
    clicks. *)

From S2P Require Import Prelude Board Engine Controller.
From stdpp Require Import well_founded.
Local Open Scope Z_scope.

(** An accepted click: selectSquare on one of the nine rendered
    squares changes the state. *)
Definition click_accepted (s s' : state) : Prop :=
  exists i, 0 <= i < 9 /\ s' = selectSquare s i /\ s' <> s.

(** The shape the code expects of the state: [squares] and every board
    of [gameHistory] hold nine squares, and [gameIdx] indexes
    [gameHistory]. *)
Definition state_shape (s : state) : bool :=
  bool_decide (length (squares s) = 9%nat) &&
  forallb (fun b => bool_decide (length b = 9%nat)) (gameHistory s) &&
  bool_decide (0 <= gameIdx s < Z.of_nat (length (gameHistory s))).

Lemma state_shape_iff (s : state) :
  state_shape s = true <->
  length (squares s) = 9%nat /\ Forall (fun b => length b = 9%nat) (gameHistory s) /\
  0 <= gameIdx s < Z.of_nat (length (gameHistory s)).
Proof.
  unfold state_shape. rewrite !andb_true_iff, !bool_decide_eq_true, forallb_forall, Forall_forall.
  setoid_rewrite bool_decide_eq_true. naive_solver.
Qed.

(** The current board is the last board of the history when a click
    is accepted, and it had a free square: the history is one board
    longer and was at most nine boards long. *)
Lemma selectSquare_accepted_length (s : state) (i : Z) :
  wf s -> selectSquare s i <> s ->
  length (gameHistory (selectSquare s i)) = S (length (gameHistory s)) /\
  (length (gameHistory s) <= 9)%nat.
Proof.
  intros Hwf Hne. unfold selectSquare in *. destruct (_ || _ || _) eqn:G; [congruence|].
  destruct (selectSquare_guard s i Hwf G) as (_ & _ & Hsq & Hlast).
  destruct (wf_history_board s _ _ Hwf (wf_squares_in_history s Hwf)) as (Hlen & Hf & _).
  pose proof (filled_lt_null _ _ Hsq). simpl. rewrite length_app. simpl.
  split; [lia|]. lia.
Qed.

Lemma wf_history_length (s : state) : wf s -> (1 <= length (gameHistory s))%nat.
Proof. intros Hwf. pose proof (wf_idx s Hwf). lia. Qed.

(** C18: type invariant: in every state of a game [squares] and every
    board of [gameHistory] are arrays of exactly 9 squares, and
    [gameIdx] is an index of [gameHistory], so every read the render and
    the handlers make at [squares[0..8]] and [gameHistory[gameIdx]] is
    defined. *)
Theorem reachable_shape (s : state) : reachable s -> state_shape s = true.
Proof.
  intros Hr. pose proof (reachable_wf s Hr) as Hwf. apply state_shape_iff. split; [|split].
  - by destruct (wf_history_board s _ _ Hwf (wf_squares_in_history s Hwf)).
  - apply Forall_lookup. intros k b Hk. by destruct (wf_history_board s k b Hwf Hk).
  - apply (wf_idx s Hwf).
Qed.

(** C17: termination: there is no infinite sequence of accepted clicks
    in a game: each click the page accepts in a reachable state adds a
    board to the history, and a history never exceeds ten boards.  The
    relation is taken on reachable states, which every accepted click
    leads to again, so a click that broke the history (an overwrite of
    an occupied square) would not end the sequence. *)
Theorem clicks_well_founded : well_founded (fun s' s => reachable s /\ click_accepted s s').
Proof.
  apply (wf_projected (<)%nat (fun s => 10 - length (gameHistory s))%nat); [|apply lt_wf].
  intros s' s [Hr (i & _ & -> & Hne)].
  destruct (selectSquare_accepted_length s i (reachable_wf s Hr) Hne). lia.
Qed.
