(* ===== verification/Refinement.v ===== *)
(** * Refinement: the history controller of the specification

    §4.2 of the specification describes a controller that owns a
    sequence of boards, a cursor and the starting mark, with the
    commands playMove, undo, redo and newGame and the errors
    GameAlreadyWon, CellOccupied, NotAtLatestState, AtStart and AtEnd.
    [HistorySpec] states that machine on the specifications of
    Engine.v ([winner_spec], [turn_spec]); the theorems below show that
    the [Board] component's handlers, seen through [alpha], implement
    it: a command the specification rejects leaves the component as it
    is (the code has no error values, it returns early or keeps the
    button disabled), and a command it accepts has the same effect. *)

From S2P Require Import Prelude Board Engine Controller.
From Stdlib Require Import QArith.
Local Open Scope Z_scope.

Module HistorySpec.

Record astate := AState { hist : list board; cursor : nat; start : mark }.

Inductive move_error := GameAlreadyWon | CellOccupied | NotAtLatestState.
Inductive nav_error := AtStart | AtEnd.

Definition newGame (m : mark) : astate := AState [empty_board] 0 m.

Definition playMove (a : astate) (i : nat) : move_error + astate :=
  match hist a !! cursor a with
  | None => inl NotAtLatestState
  | Some b =>
      if bool_decide (is_Some (winner_spec b)) then inl GameAlreadyWon
      else if bool_decide (b !! i <> Some None) then inl CellOccupied
      else if bool_decide (S (cursor a) <> length (hist a)) then inl NotAtLatestState
      else
        let b' := <[i := Some (turn_spec (count_mark X b) (count_mark O b) (start a))]> b in
        inr (AState (hist a ++ [b']) (S (cursor a)) (start a))
  end.

Definition undo (a : astate) : nav_error + astate :=
  if bool_decide (cursor a = 0%nat) then inl AtStart
  else inr (AState (hist a) (Nat.pred (cursor a)) (start a)).

Definition redo (a : astate) : nav_error + astate :=
  if bool_decide (S (cursor a) = length (hist a)) then inl AtEnd
  else inr (AState (hist a) (S (cursor a)) (start a)).

(** The machine's transitions: the commands that succeed. *)
Inductive astep : astate -> astate -> Prop :=
  | astep_play a i a' : (i < 9)%nat -> playMove a i = inr a' -> astep a a'
  | astep_undo a a' : undo a = inr a' -> astep a a'
  | astep_redo a a' : redo a = inr a' -> astep a a'
  | astep_new a m : astep a (newGame m).

End HistorySpec.

Import HistorySpec.

(** The abstraction: the history, the index as a cursor, the drawn
    mark; [squares] is the board at the cursor (Controller.wf). *)
Definition alpha (s : state) : astate :=
  AState (gameHistory s) (Z.to_nat (gameIdx s)) (initial s).

Lemma wf_winner_Null (s : state) :
  wf s -> winner s = Null <-> winner_spec (squares s) = None.
Proof.
  intros Hwf. destruct (wf_history_board s _ _ Hwf (wf_squares_in_history s Hwf)) as [Hlen _].
  unfold winner. rewrite calculateWinner_first_line by done.
  destruct (winner_spec (squares s)) as [[]|]; simpl; naive_solver.
Qed.

(** ** The commands, one by one *)

Lemma playMove_selectSquare (s : state) (i : Z) :
  wf s -> 0 <= i < 9 ->
  match playMove (alpha s) (Z.to_nat i) with
  | inl _ => selectSquare s i = s
  | inr a' => alpha (selectSquare s i) = a'
  end.
Proof.
  intros Hwf Hi. pose proof (wf_idx s Hwf) as Hidx.
  destruct (wf_history_board s _ _ Hwf (wf_squares_in_history s Hwf)) as [Hlen _].
  unfold playMove, alpha at 1. simpl. rewrite (wf_squares_in_history s Hwf).
  case_bool_decide as Hw.
  { apply selectSquare_unchanged; [done|left]. rewrite wf_winner_Null by done.
    intros E. rewrite E in Hw. by destruct Hw. }
  case_bool_decide as Hc.
  { apply selectSquare_unchanged; [done|right; left]. by rewrite sq_Null_iff by lia. }
  case_bool_decide as Hl.
  { apply selectSquare_unchanged; [done|right; right]. lia. }
  assert (winner s = Null) as Hw'.
  { apply wf_winner_Null; [done|]. destruct (winner_spec _); [|done].
    exfalso. apply Hw. by eexists. }
  rewrite selectSquare_accepted_eq; [|done|by rewrite sq_Null_iff by lia|lia].
  unfold alpha, nextValue. simpl.
  rewrite rules_turn by done. f_equal. lia.
Qed.

(** C2: selectSquare implements playMove: on a click on one of the
    nine squares, when the specification rejects the move (a winner, an
    occupied square, a cursor before the end) the component's state is
    unchanged, and when it accepts it the component's history, index
    and mark become the specification's. *)
Theorem selectSquare_refines (s : state) (i : Z) :
  wf s -> 0 <= i < 9 ->
  match playMove (alpha s) (Z.to_nat i) with
  | inl _ => selectSquare s i = s
  | inr a' => alpha (selectSquare s i) = a'
  end.
Proof. apply playMove_selectSquare. Qed.

Lemma undo_previous (s : state) :
  wf s ->
  match undo (alpha s) with
  | inl _ => previous_enabled s = false
  | inr a' => previous_enabled s = true /\ exists s', previous s = Some s' /\ alpha s' = a'
  end.
Proof.
  intros Hwf. pose proof (wf_idx s Hwf) as Hidx. unfold undo, previous_enabled. simpl.
  case_bool_decide as H0.
  { rewrite (proj2 (Z.ltb_lt _ _)) by lia. done. }
  rewrite (proj2 (Z.ltb_ge _ _)) by lia. split; [done|].
  destruct (js_at_in_range (gameHistory s) (gameIdx s - 1)) as [b Hb]; [lia|].
  eexists. unfold previous. rewrite Hb. split; [done|]. unfold alpha. simpl. f_equal. lia.
Qed.

(** C24: previous implements undo: the button is disabled exactly when
    undo fails with AtStart, and otherwise previous moves the index back
    by one as undo moves the cursor. *)
Theorem previous_refines (s : state) :
  wf s ->
  match undo (alpha s) with
  | inl _ => previous_enabled s = false
  | inr a' => previous_enabled s = true /\ exists s', previous s = Some s' /\ alpha s' = a'
  end.
Proof. apply undo_previous. Qed.

Lemma redo_next (s : state) :
  wf s ->
  match redo (alpha s) with
  | inl _ => next_enabled s = false
  | inr a' => next_enabled s = true /\ exists s', next s = Some s' /\ alpha s' = a'
  end.
Proof.
  intros Hwf. pose proof (wf_idx s Hwf) as Hidx. unfold redo, next_enabled. simpl.
  case_bool_decide as H0.
  { rewrite (proj2 (Z.leb_le _ _)) by lia. done. }
  rewrite (proj2 (Z.leb_gt _ _)) by lia. split; [done|].
  destruct (js_at_in_range (gameHistory s) (gameIdx s + 1)) as [b Hb]; [lia|].
  eexists. unfold next. rewrite Hb. split; [done|]. unfold alpha. simpl. f_equal. lia.
Qed.

(** C25: next implements redo, the same way, with AtEnd. *)
Theorem next_refines (s : state) :
  wf s ->
  match redo (alpha s) with
  | inl _ => next_enabled s = false
  | inr a' => next_enabled s = true /\ exists s', next s = Some s' /\ alpha s' = a'
  end.
Proof. apply redo_next. Qed.

Lemma restart_refines (s : state) (m : mark) : alpha (restart s m) = newGame m.
Proof. reflexivity. Qed.

(** ** The page as a whole *)

Inductive areachable : astate -> Prop :=
  | areach_new m : areachable (newGame m)
  | areach_step a a' : areachable a -> astep a a' -> areachable a'.

Lemma alpha_ui_step (s s' : state) :
  wf s -> ui_step s s' -> alpha s' = alpha s \/ astep (alpha s) (alpha s').
Proof.
  intros Hwf Hs. destruct Hs as [s i Hi|s s' He Hp|s s' He Hn|s r m Hr Hm].
  - pose proof (playMove_selectSquare s i Hwf Hi) as H.
    destruct (playMove (alpha s) (Z.to_nat i)) as [e|a'] eqn:E.
    + left. by rewrite H.
    + right. rewrite H. apply (astep_play _ (Z.to_nat i)); [lia|done].
  - pose proof (undo_previous s Hwf) as H.
    destruct (undo (alpha s)) as [e|a'] eqn:E; [congruence|].
    destruct H as (_ & s'' & Hp' & <-). right. rewrite Hp in Hp'. simplify_eq.
    by apply astep_undo.
  - pose proof (redo_next s Hwf) as H.
    destruct (redo (alpha s)) as [e|a'] eqn:E; [congruence|].
    destruct H as (_ & s'' & Hn' & <-). right. rewrite Hn in Hn'. simplify_eq.
    by apply astep_redo.
  - right. rewrite restart_refines. apply astep_new.
Qed.

(** C22: every user event either leaves the abstract state as it is (a
    rejected click) or is one transition of the specification's
    machine. *)
Theorem ui_step_refines (s s' : state) :
  wf s -> ui_step s s' -> alpha s' = alpha s \/ astep (alpha s) (alpha s').
Proof. apply alpha_ui_step. Qed.

(** C23: every state of a game is, through [alpha], a state the
    specification's machine reaches from newGame. *)
Theorem reachable_refines (s : state) : reachable s -> areachable (alpha s).
Proof.
  induction 1 as [s r m Hr Hm|s s' Hreach IH Hs].
  - rewrite restart_refines. apply areach_new.
  - destruct (alpha_ui_step s s' (reachable_wf s Hreach) Hs) as [->|Ha]; [done|].
    by eapply areach_step.
Qed.

