(* ===== verification/View.v ===== *)
(** * View: what the [Board] component renders

    The JSX of lines 51-107 as a function from the state to the text
    and attributes the page shows: the status line, the three rows of
    squares (renderSquare, lines 51-57), the [disabled] attributes of
    the previous and next buttons, and the debug panel
    ([state-params], lines 89-105) with the previous board, the
    history's length, [gameIdx] and [initial].  React renders a [null]
    or [undefined] child as nothing, a string as itself, a number as its
    decimal text (kept here as the number) and an array as its elements
    one after the other.  [Game] and [App] (lines 176-190) put that
    view inside two [div]s; [boards_of] lists the boards a page holds. *)

From S2P Require Import Prelude Board Engine Controller Refinement.
From stdpp Require Import strings.
Local Open Scope Z_scope.

(** The text of a value read from [squares]. *)
Definition jsval_text (v : jsval) : string :=
  match v with Str m => jsval_to_string (Str m) | _ => "" end.

(** The text of an array of squares: its elements' texts in order. *)
Definition board_text (r : option board) : string :=
  match r with
  | None => ""
  | Some b => foldr String.append "" (map (fun c => jsval_text (jsval_of_read (Some c))) b)
  end.

(** Lines 51-57: the button of square [i] shows [squares[i]]. *)
Definition renderSquare (s : state) (i : Z) : string := jsval_text (sq (squares s) i).

Record view := mkView {
  v_status : string;               (** line 62 *)
  v_rows : list (list string);     (** lines 63-77 *)
  v_previous_disabled : bool;      (** line 82 *)
  v_next_disabled : bool;          (** line 85 *)
  v_history : string;              (** line 92 *)
  v_length : Z;                    (** line 95 *)
  v_idx : Z;                       (** line 99 *)
  v_initial : string               (** line 103 *)
}.

(** Lines 59-107. *)
Definition render (s : state) : view :=
  {| v_status := status s;
     v_rows := [[renderSquare s 0; renderSquare s 1; renderSquare s 2];
                [renderSquare s 3; renderSquare s 4; renderSquare s 5];
                [renderSquare s 6; renderSquare s 7; renderSquare s 8]];
     v_previous_disabled := gameIdx s <? 1;
     v_next_disabled := Z.of_nat (length (gameHistory s)) <=? gameIdx s + 1;
     v_history := board_text ((gameHistory s).[gameIdx s - 1]);
     v_length := Z.of_nat (length (gameHistory s));
     v_idx := gameIdx s;
     v_initial := jsval_text (Str (initial s)) |}.

(** The text of one square. *)
Definition cell_text (c : cell) : string := jsval_text (jsval_of_read (Some c)).

(** ** The components around the board

    Lines 176-190: Game puts the Board inside two [div]s with class
    names, and App, the module's default export, renders Game. *)
Inductive element :=
  | Div (className : string) (children : list element)
  | BoardElement (v : view).

Definition Game (s : state) : element :=
  Div "game" [Div "game-board" [BoardElement (render s)]].

Definition App (s : state) : element := Game s.

(** The Board views a page holds. *)
Fixpoint boards_of (e : element) : list view :=
  match e with
  | Div _ cs => mjoin (map boards_of cs)
  | BoardElement v => [v]
  end.

(** ** Properties of the view *)

(** C32: the nine squares the page shows, row by row, are the board at
    [gameIdx] in the history (for a state satisfying the invariant),
    square [k] showing 'X', 'O' or nothing. *)
Theorem render_shows_current (s : state) (b : board) :
  wf s -> gameHistory s !! Z.to_nat (gameIdx s) = Some b ->
  mjoin (v_rows (render s)) = map cell_text b.
Proof.
  intros Hwf Hb. rewrite (wf_squares_in_history s Hwf) in Hb. injection Hb as <-.
  destruct (wf_history_board s _ _ Hwf (wf_squares_in_history s Hwf)) as [Hlen _].
  unfold render, renderSquare. simpl. destruct (squares s) as [|c0 b] eqn:E; [done|].
  do 8 (destruct b as [|? b]; [done|]). destruct b; [|done]. reflexivity.
Qed.

(** The page the module exports holds exactly one board, the render of
    the component's state. *)
Example App_one_board (s : state) : boards_of (App s) = [render s].
Proof. reflexivity. Qed.
