(* ===== verification/Storage.v ===== *)
(** * Storage: the keys of the component's state in [localStorage]

    Each state variable of the [Board] component is kept by the
    useLocalStorage hook under a key (lines 10-13): ['board'],
    ['randInitial'], ['gameIdx'] and, for the history, the array
    [Array(Array(9).fill(null))] that line 12 passes where a key is
    expected, which JavaScript converts to a string.  The hook itself
    (./useLocalStorage) is not in the repository and §6 of the
    specification leaves the stored form opaque, so what the hook
    reads, writes, in which format and when, is not modelled: this
    file holds what the code fixes, the keys. *)

From S2P Require Import Prelude Board.
From stdpp Require Import strings.

(** ** The key of line 12 *)

(** JavaScript values built from [null] and arrays. *)
Inductive jsnested := JNull | JArray (xs : list jsnested).

(** [xs.join(',')] (Array.prototype.join). *)
Fixpoint js_join (xs : list string) : string :=
  match xs with
  | [] => ""
  | [x] => x
  | x :: xs' => x +:+ "," +:+ js_join xs'
  end.

(** [String(v)] of an array element: [null] converts to the empty
    string (Array.prototype.join writes nothing for it) and an array to
    its elements joined by commas (Array.prototype.toString). *)
Fixpoint js_to_string (v : jsnested) : string :=
  match v with
  | JNull => ""
  | JArray xs => js_join (map js_to_string xs)
  end.

(** ** The four keys *)

Definition board_key : string := "board".
Definition initial_key : string := "randInitial".
(** [Array(Array(9).fill(null))]: an array holding one array of nine
    [null]s, used as the key. *)
Definition history_key : string := js_to_string (JArray [JArray (replicate 9 JNull)]).
Definition idx_key : string := "gameIdx".

(** The history is stored under the key [",,,,,,,,"]: the nine [null]s
    of the inner array joined by commas. *)
Example history_key_text : history_key = ",,,,,,,,".
Proof. reflexivity. Qed.
