(* ===== verification/Page.v ===== *)
(** * Page: the component driven by user events

    The [onClick] bindings of the rendered elements (lines 51-87) as an
    executable dispatcher of user events, runs of events, and what holds
    of every run: under the guards the page itself provides (nine
    squares, the [disabled] buttons, draws of [Math.random()] in
    [[0, 1)]) no handler ever fails, and a game can always be played to
    its end. *)

From S2P Require Import Prelude Board Engine Controller Moves.
From Stdlib Require Import QArith.
From stdpp Require Import strings.
Local Open Scope Z_scope.

(** ** Events and their dispatch *)

(** A click on square [i] (renderSquare, lines 51-57), on the
    [previous], [next] or [restart] button (lines 78-87), the latter
    with the number [Math.random()] returns. *)
Inductive event := Click (i : Z) | Previous | Next | Restart (r : Q).

(** Run the handler bound to the clicked element; a click on a
    disabled button runs nothing.  [None]: the page failed to render. *)
Definition dispatch (s : state) (e : event) : option state :=
  match e with
  | Click i => Some (selectSquare s i)
  | Previous => if previous_enabled s then previous s else Some s
  | Next => if next_enabled s then next s else Some s
  | Restart r => restart s <$> generateRandomInitial r
  end.

Fixpoint run (s : state) (es : list event) : option state :=
  match es with
  | [] => Some s
  | e :: es' => s' ← dispatch s e; run s' es'
  end.

(** The events a user can produce: the nine rendered squares and the
    numbers of [Math.random()]. *)
Definition event_ok (e : event) : bool :=
  match e with
  | Click i => (0 <=? i) && (i <? 9)
  | Restart r => Qle_bool 0 r && negb (Qle_bool 1 r)
  | _ => true
  end.

(** The game is over: a winner, or all nine squares filled. *)
Definition game_over (s : state) : bool :=
  bool_decide (winner s <> Null) || bool_decide (filled (squares s) = 9%nat).

(** Events that continue the current game. *)
Definition continues (e : event) : bool :=
  event_ok e && match e with Restart _ => false | _ => true end.

Lemma event_ok_restart (r : Q) : event_ok (Restart r) = true -> (0 <= r < 1)%Q.
Proof.
  simpl. intros [H1 H2%negb_true_iff]%andb_true_iff. apply Qle_bool_iff in H1.
  assert (~ (1 <= r)%Q) as H3 by (rewrite <- Qle_bool_iff; congruence).
  split; [done|]. by apply Qnot_le_lt.
Qed.

Lemma dispatch_ui_step (s s' : state) (e : event) :
  event_ok e = true -> dispatch s e = Some s' -> ui_step s s' \/ s' = s.
Proof.
  destruct e as [i| | |r]; intros Hok Hd; [simpl in Hok|..]; simpl in Hd.
  - apply andb_true_iff in Hok as [?%Z.leb_le ?%Z.ltb_lt]. simplify_eq. left. constructor. lia.
  - try case_match; simplify_eq; first [by right|left; by econstructor].
  - try case_match; simplify_eq; first [by right|left; by econstructor].
  - apply fmap_Some in Hd as (m & Hm & ->). left.
    eapply ui_restart; [by apply event_ok_restart|done].
Qed.

Lemma run_reachable (s s' : state) (es : list event) :
  reachable s -> forallb event_ok es = true -> run s es = Some s' -> reachable s'.
Proof.
  revert s. induction es as [|e es IH]; simpl; intros s Hr Hok Hrun; [by simplify_eq|].
  apply andb_true_iff in Hok as [He Hes].
  destruct (dispatch s e) as [s1|] eqn:Hd; [|done]. simpl in Hrun.
  apply (IH s1); [|done|done].
  destruct (dispatch_ui_step s s1 e He Hd) as [Hs| ->]; [by eapply reach_step|done].
Qed.


(** ** No event makes the page fail *)

Lemma previous_Some (s : state) :
  wf s -> previous_enabled s = true -> exists s', previous s = Some s'.
Proof.
  intros Hwf He. pose proof (wf_idx s Hwf). unfold previous_enabled in He.
  apply negb_true_iff, Z.ltb_ge in He.
  destruct (js_at_in_range (gameHistory s) (gameIdx s - 1)) as [b Hb]; [lia|].
  unfold previous. rewrite Hb. by eexists.
Qed.

Lemma next_Some (s : state) :
  wf s -> next_enabled s = true -> exists s', next s = Some s'.
Proof.
  intros Hwf He. pose proof (wf_idx s Hwf). unfold next_enabled in He.
  apply negb_true_iff, Z.leb_gt in He.
  destruct (js_at_in_range (gameHistory s) (gameIdx s + 1)) as [b Hb]; [lia|].
  unfold next. rewrite Hb. by eexists.
Qed.

Lemma dispatch_is_Some (s : state) (e : event) :
  wf s -> event_ok e = true -> is_Some (dispatch s e).
Proof.
  intros Hwf Hok. destruct e as [i| | |r]; simpl; try case_match;
    first [by eexists|by apply previous_Some|by apply next_Some|idtac].
  rewrite (generateRandomInitial_range r (event_ok_restart r Hok)). by eexists.
Qed.

Lemma dispatch_safe (s : state) (e : event) :
  reachable s -> event_ok e = true -> exists s', dispatch s e = Some s' /\ reachable s'.
Proof.
  intros Hr Hok. destruct (dispatch_is_Some s e (reachable_wf s Hr) Hok) as [s' Hd].
  exists s'. split; [done|].
  destruct (dispatch_ui_step s s' e Hok Hd) as [Hs| ->]; [by eapply reach_step|done].
Qed.

(** C14: in every state of a game, every event the page lets a user
    produce (a click on a square, on an enabled previous or next
    button, on restart) runs its handler without failing, and leads to
    a state of the game. *)
Theorem page_never_fails (s : state) (e : event) :
  reachable s -> event_ok e = true -> exists s', dispatch s e = Some s' /\ reachable s'.
Proof. apply dispatch_safe. Qed.

Lemma run_app (s : state) (es1 es2 : list event) :
  run s (es1 ++ es2) = s1 ← run s es1; run s1 es2.
Proof.
  revert s. induction es1 as [|e es1 IH]; intros s; simpl; [done|].
  destruct (dispatch s e); simpl; [apply IH|done].
Qed.

(** ** The history only grows *)

Lemma previous_fields (s s' : state) :
  previous s = Some s' -> gameHistory s' = gameHistory s /\ initial s' = initial s.
Proof. unfold previous. destruct (_.[_]); intros; simplify_eq. done. Qed.

Lemma next_fields (s s' : state) :
  next s = Some s' ->
  gameHistory s' = gameHistory s /\ gameIdx s' = gameIdx s + 1 /\ initial s' = initial s.
Proof. unfold next. destruct (_.[_]); intros; simplify_eq. done. Qed.

Lemma selectSquare_prefix (s : state) (i : Z) :
  gameHistory s `prefix_of` gameHistory (selectSquare s i) /\ initial (selectSquare s i) = initial s.
Proof. unfold selectSquare. case_match; simpl; [done|]. split; [by eexists|done]. Qed.

Lemma dispatch_append_only (s s' : state) (e : event) :
  continues e = true -> dispatch s e = Some s' ->
  gameHistory s `prefix_of` gameHistory s' /\ initial s' = initial s.
Proof.
  destruct e as [i| | |r]; intros Hc Hd; simpl in Hd; try case_match; simplify_eq;
    first [done|apply selectSquare_prefix
          |by destruct (previous_fields s s' Hd) as [-> ->]
          |by destruct (next_fields s s' Hd) as (-> & _ & ->)|idtac].
  unfold continues in Hc. by rewrite andb_false_r in Hc.
Qed.

(** C16: the history is append-only: along any run of events that does
    not restart, the history of the start is a prefix of the history
    reached (no board is ever removed or rewritten, and a click while
    viewing a past board never discards the boards after it), and the
    mark drawn at the start is kept. *)
Theorem run_append_only (s s' : state) (es : list event) :
  forallb continues es = true -> run s es = Some s' ->
  gameHistory s `prefix_of` gameHistory s' /\ initial s' = initial s.
Proof.
  revert s. induction es as [|e es IH]; simpl; intros s Hc Hrun; [by simplify_eq|].
  apply andb_true_iff in Hc as [He Hes].
  destruct (dispatch s e) as [s1|] eqn:Hd; [|done]. simpl in Hrun.
  destruct (dispatch_append_only s s1 e He Hd) as [H1 E1].
  destruct (IH s1 Hes Hrun) as [H2 E2]. split; [by trans (gameHistory s1)|congruence].
Qed.

(** ** A finished game is frozen *)

Lemma game_over_selectSquare (s : state) (i : Z) :
  wf s -> game_over s = true -> selectSquare s i = s.
Proof.
  intros Hwf Ho. apply selectSquare_unchanged; [done|].
  destruct (wf_history_board s _ _ Hwf (wf_squares_in_history s Hwf)) as [Hlen _].
  unfold game_over in Ho. apply orb_true_iff in Ho as [Hw%bool_decide_eq_true|Hf%bool_decide_eq_true];
    [by left|right; left].
  intros [_ Hk%filled_lt_null]%sq_Null_lookup. lia.
Qed.

(** C8: once the game is over (a winner, or all nine squares filled) a
    click on any square, in range or not, leaves the page's state as it
    is: only previous, next and restart still act. *)
Theorem game_over_rejects (s : state) (i : Z) :
  wf s -> game_over s = true -> dispatch s (Click i) = Some s.
Proof. intros Hwf Ho. simpl. f_equal. by apply game_over_selectSquare. Qed.

(** ** Every game can be played to its end *)

Lemma forallb_continues_next (n : nat) : forallb continues (replicate n Next) = true.
Proof. induction n; simpl; auto. Qed.

(** Clicking next [n] times reaches the end of the history. *)
Lemma run_to_head (n : nat) (s : state) :
  reachable s -> Z.to_nat (Z.of_nat (length (gameHistory s)) - 1 - gameIdx s) = n ->
  exists s', run s (replicate n Next) = Some s' /\ reachable s' /\
             gameIdx s' + 1 = Z.of_nat (length (gameHistory s')).
Proof.
  revert s. induction n as [|n IH]; intros s Hr Hn; pose proof (wf_idx s (reachable_wf s Hr)).
  - exists s. split; [done|]. split; [done|]. lia.
  - assert (E : next_enabled s = true).
    { unfold next_enabled. apply negb_true_iff, Z.leb_gt. lia. }
    destruct (next_Some s (reachable_wf s Hr) E) as [s1 Hs1].
    destruct (next_fields s s1 Hs1) as (Hh & Hi & _).
    assert (Hr1 : reachable s1) by (eapply reach_step; [done|]; by constructor).
    destruct (IH s1 Hr1) as (s' & Hrun & ? & ?); [rewrite Hh, Hi; lia|].
    exists s'. simpl. rewrite E, Hs1. simpl. done.
Qed.

(** At the end of the history, clicking free squares ends the game. *)
Lemma play_to_end (n : nat) (s : state) :
  reachable s -> gameIdx s + 1 = Z.of_nat (length (gameHistory s)) ->
  (9 - filled (squares s))%nat = n ->
  exists es s', forallb continues es = true /\ run s es = Some s' /\ game_over s' = true.
Proof.
  revert s. induction n as [|n IH]; intros s Hr Hlast Hn;
    pose proof (reachable_wf s Hr) as Hwf;
    destruct (wf_history_board s _ _ Hwf (wf_squares_in_history s Hwf)) as (Hlen & _);
    pose proof (filled_le_length (squares s));
    (destruct (game_over s) eqn:Ho; [by exists [], s|]);
    unfold game_over in Ho; apply orb_false_iff in Ho as [Hw Hf];
    apply bool_decide_eq_false, dec_stable in Hw; apply bool_decide_eq_false in Hf; [lia|].
  destruct (exists_null (squares s)) as [k Hk]; [lia|].
  pose proof (lookup_lt_Some _ _ _ Hk).
  assert (Hsq : sq (squares s) (Z.of_nat k) = Null) by (rewrite sq_Null_iff, Nat2Z.id by lia; done).
  set (s1 := selectSquare s (Z.of_nat k)).
  assert (Hr1 : reachable s1) by (eapply reach_step; [done|]; constructor; lia).
  assert (Hs1 : s1 = _) by (apply selectSquare_accepted_eq; done).
  assert (Hk' : squares s !! Z.to_nat (Z.of_nat k) = Some None) by (by rewrite Nat2Z.id).
  destruct (IH s1 Hr1) as (es & s' & Hes & Hrun & Hover).
  { rewrite Hs1. simpl. rewrite length_app. simpl. lia. }
  { rewrite Hs1. simpl. rewrite filled_insert by done. lia. }
  exists (Click (Z.of_nat k) :: es), s'. simpl. rewrite Hes, andb_true_r.
  split; [apply andb_true_iff; split; [apply andb_true_iff; split|]; [apply Z.leb_le|apply Z.ltb_lt|]; done || lia|].
  split; [done|done].
Qed.

(** C15: liveness: from every state of a game the user can finish the
    game without restarting: some run of clicks on squares and on the
    enabled navigation buttons ends in a state with a winner or with all
    nine squares filled. *)
Theorem game_can_finish (s : state) :
  reachable s ->
  exists es s', forallb continues es = true /\ run s es = Some s' /\ game_over s' = true.
Proof.
  intros Hr.
  destruct (run_to_head _ s Hr eq_refl) as (s1 & Hrun1 & Hr1 & Hhead).
  destruct (play_to_end _ s1 Hr1 Hhead eq_refl) as (es & s' & Hes & Hrun2 & Hover).
  exists (replicate (Z.to_nat (Z.of_nat (length (gameHistory s)) - 1 - gameIdx s)) Next ++ es), s'.
  rewrite forallb_app, forallb_continues_next, Hes, run_app, Hrun1. simpl. done.
Qed.
