(* ===== verification/Scenarios.v ===== *)
(** * Scenarios: the page driven by user events

    The scenarios of the specification, run on the event dispatcher of
    Page.v, and concrete instances of the theorems of the other files:
    each theorem with a hypothesis is applied at a state the page
    reaches. *)

From S2P Require Import Prelude Board Engine Controller Moves Refinement View Storage Page.
From Stdlib Require Import QArith.
From stdpp Require Import strings.
Import HistorySpec.
Local Open Scope Z_scope.

(** A game started by [restart] with the draw [0] (so 'X' begins). *)
Definition fresh : state := restart (mkState [] X [] 0) X.

Lemma fresh_reachable : reachable fresh.
Proof. apply (reach_restart (mkState [] X [] 0) 0%Q X); [split; vm_compute; easy|reflexivity]. Qed.

Lemma run_fresh_reachable (es : list event) (s : state) :
  forallb event_ok es = true -> run fresh es = Some s -> reachable s.
Proof. apply run_reachable, fresh_reachable. Qed.

(** ** The scenarios of the specification (§8) *)

(** Scenario A: on the empty board with 'X' drawn, X moves next. *)
Example scenario_A : status fresh = "Next player: X".
Proof. reflexivity. Qed.

(** Scenario B: X plays 0, 3, 6 and O plays 1, 4: X wins on the left column,
    reported with the endpoints (0,0) and (2,0). *)
Definition game_B : option state := run fresh [Click 0; Click 1; Click 3; Click 4; Click 6].

Example scenario_B :
  (fun s => (calculateWinner (squares s), status s)) <$> game_B =
  Some ((Str X, Some ((0, 0), (2, 0))), "Winner: X").
Proof. vm_compute. reflexivity. Qed.

(** Scenario C: a full board without three in a row is a cat's game. *)
Definition game_C : option state :=
  run fresh [Click 0; Click 1; Click 2; Click 4; Click 3; Click 5; Click 7; Click 6; Click 8].

Example scenario_C : status <$> game_C = Some "Scratch: Cat's game".
Proof. vm_compute. reflexivity. Qed.

(** Scenario D: after three moves and two clicks on previous, a click on a
    free square changes nothing. *)
Definition game_D_before : option state :=
  run fresh [Click 0; Click 1; Click 2; Previous; Previous].

Example scenario_D :
  (s ← game_D_before; dispatch s (Click 5)) = game_D_before /\ is_Some game_D_before.
Proof. vm_compute. split; [reflexivity|eexists; reflexivity]. Qed.

(** Scenario E: at the start the previous button is disabled, so the click
    changes nothing, although the handler itself would fail. *)
Example scenario_E : dispatch fresh Previous = Some fresh /\ previous fresh = None.
Proof. split; reflexivity. Qed.

(** Scenario F: restart after some moves leaves a history of one board, index 0
    and a fresh draw ('O' for [Math.random() = 3/4]). *)
Example scenario_F :
  (fun s => (length (gameHistory s), gameIdx s, initial s)) <$>
    run fresh [Click 4; Click 0; Restart (3 # 4)] = Some (1%nat, 0, O).
Proof. vm_compute. reflexivity. Qed.

(** ** Concrete instances of the theorems *)

(** The board of scenario B after the winning move, and the state. *)
Definition board_B : board :=
  [Some X; Some O; None; Some X; Some O; None; Some X; None; None].

Definition state_B : state :=
  match game_B with Some s => s | None => fresh end.

Lemma state_B_reachable : reachable state_B.
Proof.
  apply (run_fresh_reachable [Click 0; Click 1; Click 3; Click 4; Click 6]);
    vm_compute; reflexivity.
Qed.

(** The state after X's first move on the centre square. *)
Definition state_1 : state := selectSquare fresh 4.

Lemma fresh_wf : wf fresh.
Proof. apply wf_restart. Qed.

Lemma ui_step_wf_witness :
  wf fresh /\ ui_step fresh state_1 /\ wf state_1.
Proof.
  assert (H1 : wf fresh) by apply fresh_wf.
  assert (H2 : ui_step fresh state_1) by (constructor; lia).
  split; [exact H1|split; [exact H2|exact (ui_step_wf fresh state_1 H1 H2)]].
Defined.

Lemma calculateWinner_none_iff_witness :
  length empty_board = 9%nat /\
  (calculateWinner empty_board = (Null, None) <-> forall m, ~ wins empty_board m).
Proof.
  split; [reflexivity|]. apply calculateWinner_none_iff. reflexivity.
Defined.

Lemma calculateWinner_sound_witness :
  length board_B = 9%nat /\
  calculateWinner board_B = (Str X, Some ((0, 0), (2, 0))) /\
  exists m, Str X = Str m /\ wins board_B m /\ segment_filled board_B m ((0, 0), (2, 0)).
Proof.
  split; [reflexivity|]. split; [vm_compute; reflexivity|].
  apply calculateWinner_sound; vm_compute; reflexivity.
Defined.

Lemma calculateNextValue_turn_witness :
  length board_B = 9%nat /\
  calculateNextValue board_B O = turn_spec (count_mark X board_B) (count_mark O board_B) O.
Proof. split; [reflexivity|]. apply calculateNextValue_turn. reflexivity. Defined.

Lemma calculateWinner_spec_witness :
  length board_B = 9%nat /\
  calculateWinner board_B =
  match winner_spec board_B with Some (m, ln) => (Str m, Some ln) | None => (Null, None) end.
Proof. split; [reflexivity|]. apply calculateWinner_spec. reflexivity. Defined.

Lemma calculateStatus_cases_witness :
  length board_B = 9%nat /\
  let status := calculateStatus (calculateWinner board_B).1 board_B
                  (calculateNextValue board_B X) in
  (exists m, wins board_B m /\ status = "Winner: " +:+ jsval_to_string (Str m)) \/
  ((forall m, ~ wins board_B m) /\ filled board_B = 9%nat /\ status = "Scratch: Cat's game") \/
  ((forall m, ~ wins board_B m) /\ (filled board_B < 9)%nat /\
   status = "Next player: " +:+ jsval_to_string
              (Str (turn_spec (count_mark X board_B) (count_mark O board_B) X))).
Proof. split; [reflexivity|]. apply calculateStatus_cases. reflexivity. Defined.

Lemma generateRandomInitial_spec_witness :
  (0 <= 1 # 4 < 1)%Q /\
  generateRandomInitial (1 # 4) = Some (if Qlt_le_dec (1 # 4) (1 # 2) then X else O).
Proof.
  assert (H : (0 <= 1 # 4 < 1)%Q) by (split; vm_compute; easy).
  split; [exact H|exact (generateRandomInitial_spec (1 # 4) H)].
Defined.

Lemma reachable_balanced_witness :
  reachable state_B /\ gameHistory state_B !! 5%nat = Some board_B /\
  Z.abs (Z.of_nat (count_mark X board_B) - Z.of_nat (count_mark O board_B)) <= 1.
Proof.
  assert (H : reachable state_B) by apply state_B_reachable.
  assert (Hk : gameHistory state_B !! 5%nat = Some board_B) by (vm_compute; reflexivity).
  split; [exact H|split; [exact Hk|exact (reachable_balanced state_B 5 board_B H Hk)]].
Defined.

Lemma reachable_history_bound_witness :
  reachable state_B /\ (length (gameHistory state_B) <= 10)%nat.
Proof.
  assert (H : reachable state_B) by apply state_B_reachable.
  split; [exact H|exact (reachable_history_bound state_B H)].
Defined.

Lemma reachable_alternation_witness :
  reachable state_B /\ gameHistory state_B !! 0%nat = Some empty_board /\
  gameHistory state_B !! 1%nat = Some (<[0%nat := Some X]> empty_board) /\
  exists i, empty_board !! i = Some None /\
    <[0%nat := Some X]> empty_board =
    <[i := Some (if Nat.even 0 then initial state_B else other (initial state_B))]> empty_board.
Proof.
  assert (H : reachable state_B) by apply state_B_reachable.
  assert (H0 : gameHistory state_B !! 0%nat = Some empty_board) by (vm_compute; reflexivity).
  assert (H1 : gameHistory state_B !! 1%nat = Some (<[0%nat := Some X]> empty_board))
    by (vm_compute; reflexivity).
  split; [exact H|split; [exact H0|split; [exact H1|]]].
  exact (reachable_alternation state_B 0 _ _ H H0 H1).
Defined.

Lemma selectSquare_rejects_witness :
  wf state_B /\ (winner state_B <> Null \/ sq (squares state_B) 8 <> Null \/
                 gameIdx state_B + 1 <> Z.of_nat (length (gameHistory state_B))) /\
  selectSquare state_B 8 = state_B.
Proof.
  assert (H : wf state_B) by apply (reachable_wf _ state_B_reachable).
  assert (Hw : winner state_B <> Null \/ sq (squares state_B) 8 <> Null \/
               gameIdx state_B + 1 <> Z.of_nat (length (gameHistory state_B)))
    by (left; vm_compute; discriminate).
  split; [exact H|split; [exact Hw|exact (selectSquare_rejects state_B 8 H Hw)]].
Defined.

Lemma selectSquare_accepts_witness :
  wf fresh /\ winner fresh = Null /\ sq (squares fresh) 4 = Null /\
  gameIdx fresh + 1 = Z.of_nat (length (gameHistory fresh)) /\
  let s' := selectSquare fresh 4 in
  gameHistory s' = gameHistory fresh ++ [squares s'] /\ gameIdx s' = gameIdx fresh + 1 /\
  squares s' !! Z.to_nat 4 =
    Some (Some (turn_spec (count_mark X (squares fresh)) (count_mark O (squares fresh))
                          (initial fresh))) /\
  (forall j, j <> Z.to_nat 4 -> squares s' !! j = squares fresh !! j).
Proof.
  assert (H : wf fresh) by apply fresh_wf.
  assert (Hw : winner fresh = Null) by reflexivity.
  assert (Hs : sq (squares fresh) 4 = Null) by reflexivity.
  assert (Hl : gameIdx fresh + 1 = Z.of_nat (length (gameHistory fresh))) by reflexivity.
  do 4 (split; [assumption|]). exact (selectSquare_accepts fresh 4 H Hw Hs Hl).
Defined.

Lemma selectSquare_previous_witness :
  wf fresh /\ selectSquare fresh 4 <> fresh /\
  previous (selectSquare fresh 4) =
  Some {| squares := squares fresh; initial := initial fresh;
          gameHistory := gameHistory (selectSquare fresh 4); gameIdx := gameIdx fresh |}.
Proof.
  assert (H : wf fresh) by apply fresh_wf.
  assert (Hne : selectSquare fresh 4 <> fresh) by (vm_compute; congruence).
  split; [exact H|split; [exact Hne|exact (selectSquare_previous fresh 4 H Hne)]].
Defined.

Lemma previous_next_witness :
  wf state_1 /\ previous state_1 = Some (match previous state_1 with Some s => s | None => fresh end) /\
  next (match previous state_1 with Some s => s | None => fresh end) = Some state_1.
Proof.
  assert (H : wf state_1) by apply (wf_selectSquare _ _ fresh_wf).
  assert (Hp : previous state_1 = Some (match previous state_1 with Some s => s | None => fresh end))
    by (vm_compute; reflexivity).
  split; [exact H|split; [exact Hp|exact (previous_next state_1 _ H Hp)]].
Defined.

Lemma previous_at_start_witness : gameIdx fresh = 0 /\ previous fresh = None.
Proof.
  assert (H : gameIdx fresh = 0) by reflexivity.
  split; [exact H|exact (previous_at_start fresh H)].
Defined.

Lemma selectSquare_refines_witness :
  wf fresh /\ 0 <= 4 < 9 /\
  match playMove (alpha fresh) (Z.to_nat 4) with
  | inl _ => selectSquare fresh 4 = fresh
  | inr a' => alpha (selectSquare fresh 4) = a'
  end.
Proof.
  assert (H : wf fresh) by apply fresh_wf. assert (Hi : 0 <= 4 < 9) by lia.
  split; [exact H|split; [exact Hi|exact (selectSquare_refines fresh 4 H Hi)]].
Defined.

Lemma previous_refines_witness :
  wf state_1 /\
  match undo (alpha state_1) with
  | inl _ => previous_enabled state_1 = false
  | inr a' => previous_enabled state_1 = true /\
              exists s', previous state_1 = Some s' /\ alpha s' = a'
  end.
Proof.
  assert (H : wf state_1) by apply (wf_selectSquare _ _ fresh_wf).
  split; [exact H|exact (previous_refines state_1 H)].
Defined.

Lemma next_refines_witness :
  wf fresh /\
  match redo (alpha fresh) with
  | inl _ => next_enabled fresh = false
  | inr a' => next_enabled fresh = true /\ exists s', next fresh = Some s' /\ alpha s' = a'
  end.
Proof.
  assert (H : wf fresh) by apply fresh_wf.
  split; [exact H|exact (next_refines fresh H)].
Defined.

Lemma ui_step_refines_witness :
  wf fresh /\ ui_step fresh state_1 /\
  (alpha state_1 = alpha fresh \/ astep (alpha fresh) (alpha state_1)).
Proof.
  assert (H1 : wf fresh) by apply fresh_wf.
  assert (H2 : ui_step fresh state_1) by (constructor; lia).
  split; [exact H1|split; [exact H2|exact (ui_step_refines fresh state_1 H1 H2)]].
Defined.

Lemma reachable_refines_witness : reachable state_B /\ areachable (alpha state_B).
Proof.
  assert (H : reachable state_B) by apply state_B_reachable.
  split; [exact H|exact (reachable_refines state_B H)].
Defined.

Lemma board_B_wins_X : wins board_B X.
Proof.
  apply (wins_col _ _ 0); [lia|].
  intros r Hr. destruct (three_cases r Hr) as [E|[E|E]]; subst r; reflexivity.
Qed.

Lemma reachable_winner_last_mover_witness :
  reachable state_B /\ gameHistory state_B !! 5%nat = Some board_B /\ wins board_B X /\
  X = if Nat.even 4 then initial state_B else other (initial state_B).
Proof.
  assert (H : reachable state_B) by apply state_B_reachable.
  assert (Hk : gameHistory state_B !! 5%nat = Some board_B) by (vm_compute; reflexivity).
  assert (Hw : wins board_B X) by apply board_B_wins_X.
  split; [exact H|split; [exact Hk|split; [exact Hw|]]].
  exact (reachable_winner_last_mover state_B 4 board_B X H Hk Hw).
Defined.

Lemma reachable_single_winner_witness :
  reachable state_B /\ gameHistory state_B !! 5%nat = Some board_B /\
  ~ (wins board_B X /\ wins board_B O).
Proof.
  assert (H : reachable state_B) by apply state_B_reachable.
  assert (Hk : gameHistory state_B !! 5%nat = Some board_B) by (vm_compute; reflexivity).
  split; [exact H|split; [exact Hk|exact (reachable_single_winner state_B 5 board_B H Hk)]].
Defined.

Lemma reachable_progress_witness :
  reachable fresh /\ gameIdx fresh + 1 = Z.of_nat (length (gameHistory fresh)) /\
  winner fresh = Null /\ (filled (squares fresh) < 9)%nat /\
  exists i : Z, (0 <= i < 9) /\ ui_step fresh (selectSquare fresh i) /\
    length (gameHistory (selectSquare fresh i)) = S (length (gameHistory fresh)).
Proof.
  assert (H : reachable fresh) by apply fresh_reachable.
  assert (Hl : gameIdx fresh + 1 = Z.of_nat (length (gameHistory fresh))) by reflexivity.
  assert (Hw : winner fresh = Null) by reflexivity.
  assert (Hf : (filled (squares fresh) < 9)%nat) by (vm_compute; lia).
  do 4 (split; [assumption|]). exact (reachable_progress fresh H Hl Hw Hf).
Defined.

Lemma reachable_shape_witness : reachable state_B /\ state_shape state_B = true.
Proof.
  assert (H : reachable state_B) by apply state_B_reachable.
  split; [exact H|exact (reachable_shape state_B H)].
Defined.

Lemma render_shows_current_witness :
  wf state_B /\ gameHistory state_B !! Z.to_nat (gameIdx state_B) = Some board_B /\
  mjoin (v_rows (render state_B)) = map cell_text board_B.
Proof.
  assert (H : wf state_B) by apply (reachable_wf _ state_B_reachable).
  assert (Hb : gameHistory state_B !! Z.to_nat (gameIdx state_B) = Some board_B)
    by (vm_compute; reflexivity).
  split; [exact H|split; [exact Hb|exact (render_shows_current state_B board_B H Hb)]].
Defined.

(** The state after X's move on the centre, previous and next. *)
(** The page of scenario B: X's winning column, the status, the
    enabled previous button and the debug panel. *)
Example render_B :
  (fun s => (v_status (render s), v_rows (render s), v_previous_disabled (render s),
             v_next_disabled (render s), v_history (render s), v_length (render s))) <$> game_B =
  Some ("Winner: X", [["X"; "O"; ""]; ["X"; "O"; ""]; ["X"; ""; ""]], false, true, "XOXO", 6).
Proof. vm_compute. reflexivity. Qed.

Lemma page_never_fails_witness :
  reachable state_B /\ event_ok (Click 8) = true /\
  exists s', dispatch state_B (Click 8) = Some s' /\ reachable s'.
Proof.
  split; [exact state_B_reachable|split; [reflexivity|]].
  apply (page_never_fails state_B (Click 8)); [exact state_B_reachable|reflexivity].
Defined.

Lemma game_can_finish_witness :
  reachable state_1 /\
  exists es s', forallb continues es = true /\ run state_1 es = Some s' /\ game_over s' = true.
Proof.
  assert (H : reachable state_1).
  { apply (run_fresh_reachable [Click 4]); reflexivity. }
  split; [exact H|]. apply game_can_finish. exact H.
Defined.

Lemma next_at_end_witness :
  wf state_B /\ gameIdx state_B + 1 = Z.of_nat (length (gameHistory state_B)) /\
  next state_B = None.
Proof.
  pose proof (reachable_wf _ state_B_reachable) as H.
  split; [exact H|split; [vm_compute; reflexivity|]].
  apply next_at_end; [exact H|vm_compute; reflexivity].
Defined.

Lemma selectSquare_out_of_range_witness :
  wf state_1 /\ (9 < 0 \/ 9 <= 9) /\ selectSquare state_1 9 = state_1.
Proof.
  assert (H : wf state_1).
  { apply reachable_wf, (run_fresh_reachable [Click 4]); reflexivity. }
  split; [exact H|split; [lia|]].
  apply selectSquare_out_of_range; [exact H|lia].
Defined.

Definition state_D : state :=
  match game_D_before with Some s => s | None => fresh end.

Lemma run_append_only_witness :
  forallb continues [Click 0; Click 1; Click 2; Previous; Previous; Click 5] = true /\
  run fresh [Click 0; Click 1; Click 2; Previous; Previous; Click 5] = Some state_D /\
  gameHistory fresh `prefix_of` gameHistory state_D /\ initial state_D = initial fresh.
Proof.
  assert (Hc : forallb continues [Click 0; Click 1; Click 2; Previous; Previous; Click 5] = true)
    by reflexivity.
  assert (Hr : run fresh [Click 0; Click 1; Click 2; Previous; Previous; Click 5] = Some state_D)
    by (vm_compute; reflexivity).
  split; [exact Hc|split; [exact Hr|]]. exact (run_append_only _ _ _ Hc Hr).
Defined.

Lemma game_over_rejects_witness :
  wf state_B /\ game_over state_B = true /\ dispatch state_B (Click 8) = Some state_B.
Proof.
  pose proof (reachable_wf _ state_B_reachable) as H.
  assert (Ho : game_over state_B = true) by (vm_compute; reflexivity).
  split; [exact H|split; [exact Ho|]]. exact (game_over_rejects state_B 8 H Ho).
Defined.

